(** * ComplyScribe CLI configuration

    A shallow embedding of [complyscribe/cli/config.py]: the error type
    [ComplyScribeConfigError], the two data models [UpstreamsConfig] and
    [ComplyScribeConfig] with [to_yaml_dict], and the four module functions
    [load_from_file], [write_to_file], [make_config] and [update_config].

    The module leans on three libraries.  Their behaviour is part of the
    model and is marked as such where it is defined:
    - pydantic v2 ([BaseModel] construction, [model_validate], [model_copy],
      [ValidationError.errors]);
    - PyYAML ([yaml.safe_load], [yaml.dump]) and [pathlib], which are taken
      as the operations of a [Platform];
    - the file system, a finite map from path strings to nodes.

    Python values are restricted to the ones a YAML document or a caller of
    this module hands over: [None], booleans, integers, strings, paths,
    lists, string-keyed dictionaries and [UpstreamsConfig] instances. *)

From Stdlib Require Import ZArith Ascii String DecimalString.
From stdpp Require Import base option list strings gmap.

Local Open Scope string_scope.
Local Open Scope list_scope.
Local Open Scope stdpp_scope.
Set Warnings "-register-all".
#[local] Arguments String.append !_ _ / : simpl nomatch.

(** ** Python values *)

(** [class UpstreamsConfig(BaseModel)], lines 46-52. *)
Record UpstreamsConfig := mkUpstreamsConfig {
  sources : list string;
  include_models : list string;
  exclude_models : list string;
  skip_validation : bool;
}.

(** A [pathlib.Path] is represented by its string form, [VPath s] being the
    path object [p] with [str(p) = s]. *)
Inductive pyval :=
| VNone
| VBool (b : bool)
| VInt (n : Z)
| VStr (s : string)
| VPath (s : string)
| VList (xs : list pyval)
| VDict (d : list (string * pyval))
| VUpstreams (u : UpstreamsConfig).

(** A dictionary literal keeps its insertion order, so dictionaries that are
    built or read entry by entry are association lists; [d.get(k)]. *)
Fixpoint dict_get {A} (d : list (string * A)) (k : string) : option A :=
  match d with
  | [] => None
  | (k', v) :: r => if String.eqb k' k then Some v else dict_get r k
  end.

(** [d.update({k: v})]: an existing key keeps its place, a new one goes last. *)
Fixpoint dict_set {A} (d : list (string * A)) (k : string) (v : A) : list (string * A) :=
  match d with
  | [] => [(k, v)]
  | (k', v') :: r => if String.eqb k' k then (k, v) :: r else (k', v') :: dict_set r k v
  end.

Definition list_string_eqb (xs ys : list string) : bool :=
  bool_decide (xs = ys).

Definition upstreams_eqb (u w : UpstreamsConfig) : bool :=
  list_string_eqb (sources u) (sources w)
  && list_string_eqb (include_models u) (include_models w)
  && list_string_eqb (exclude_models u) (exclude_models w)
  && Bool.eqb (skip_validation u) (skip_validation w).

(** Python's [==] on these values: [bool] is a subclass of [int], lists are
    compared position by position, dictionaries key by key whatever their
    order, and values of unrelated types are different. *)
Fixpoint py_eq (a b : pyval) {struct a} : bool :=
  match a, b with
  | VNone, VNone => true
  | VBool x, VBool y => Bool.eqb x y
  | VBool x, VInt n => Z.eqb (Z.b2z x) n
  | VInt n, VBool x => Z.eqb n (Z.b2z x)
  | VInt m, VInt n => Z.eqb m n
  | VStr s, VStr t => String.eqb s t
  | VPath s, VPath t => String.eqb s t
  | VList xs, VList ys =>
      (fix go (xs ys : list pyval) : bool :=
         match xs, ys with
         | [], [] => true
         | x :: xs', y :: ys' => py_eq x y && go xs' ys'
         | _, _ => false
         end) xs ys
  | VDict d, VDict e =>
      (fix go (d : list (string * pyval)) : bool :=
         match d with
         | [] => true
         | (k, v) :: r =>
             match dict_get e k with
             | Some w => py_eq v w
             | None => false
             end && go r
         end) d
      && forallb (fun k => bool_decide (is_Some (dict_get d k))) (map fst e)
  | VUpstreams u, VUpstreams w => upstreams_eqb u w
  | _, _ => false
  end.

(** [x in xs] on a list. *)
Definition py_in (x : pyval) (xs : list pyval) : bool :=
  existsb (fun e => py_eq e x) xs.

(** [f"{n}"] for a natural number. *)
Definition str_of_nat (n : nat) : string :=
  NilZero.string_of_uint (Nat.to_uint n).

(** ** ComplyScribeConfigError (lines 19-43) *)

(** An item of a pydantic error location: a field name or a list index. *)
Inductive locseg :=
| LKey (s : string)
| LIdx (i : nat).

Definition str_of_locseg (x : locseg) : string :=
  match x with
  | LKey s => s
  | LIdx i => str_of_nat i
  end.

(** The pydantic error dictionary of the class docstring,
    [{'type': str, 'loc': tuple[str], 'msg': str, 'input': str}].  A field
    is [None] when the key is missing, which is what [err.get] returns. *)
Record ErrorDict := mkErrorDict {
  type_ : option string;
  loc : option (list locseg);
  msg : option string;
  input : option pyval;
}.

(** Truth value of [err.get("msg")]: a missing key and the empty string are
    false. *)
Definition get_truthy_str (o : option string) : option string :=
  match o with
  | Some (String c s) => Some (String c s)
  | _ => None
  end.

(** Truth value of [err.get("loc")] together with [err['loc'][0]]. *)
Definition get_truthy_loc0 (o : option (list locseg)) : option locseg :=
  match o with
  | Some (x :: _) => Some x
  | _ => None
  end.

(** [ComplyScribeConfigError._format], lines 32-40. *)
Definition _format (err : ErrorDict) : string :=
  let msg0 := "Unable to load config." in
  let msg1 :=
    match get_truthy_loc0 (loc err) with
    | Some x => "Invalid config value for " +:+ str_of_locseg x +:+ "."
    | None => msg0
    end in
  match get_truthy_str (msg err) with
  | Some m => msg1 +:+ " " +:+ m +:+ "."
  | None => msg1
  end.

(** The exception object: [self.errors] and the argument handed to
    [Exception.__init__]. *)
Record ComplyScribeConfigError := mkComplyScribeConfigError {
  errors : list string;
  args : string;
}.

(** [ComplyScribeConfigError.__init__], lines 26-30. *)
Definition ComplyScribeConfigError_init (errs : list ErrorDict) : ComplyScribeConfigError :=
  let formatted := map _format errs in
  {| errors := formatted;
     args := "complyscribe config file contains "
             +:+ str_of_nat (length formatted) +:+ " error(s)." |}.

(** [ComplyScribeConfigError.__str__], lines 42-43. *)
Definition ComplyScribeConfigError_str (self : ComplyScribeConfigError) : string :=
  String.concat EmptyString (errors self).

(** ** Exceptions *)

Inductive exn :=
| EValidationError (errs : list ErrorDict)
| EComplyScribeConfigError (e : ComplyScribeConfigError)
| EFileNotFoundError
| EIsADirectoryError
| EFileExistsError
| ETypeError
| EYAMLError.

Inductive result (A : Type) :=
| Ret (a : A)
| Raise (e : exn).
Arguments Ret {A} a.
Arguments Raise {A} e.

#[export] Instance result_ret : MRet result := @Ret.
#[export] Instance result_bind : MBind result := fun A B f m =>
  match m with
  | Ret a => f a
  | Raise e => Raise e
  end.

(** [try: body except ...]: the handler names the exceptions it catches and
    what the clause does; the others propagate. *)
Definition try_except {A} (body : result A) (handler : exn -> option (result A)) : result A :=
  match body with
  | Ret a => Ret a
  | Raise e =>
      match handler e with
      | Some r => r
      | None => Raise e
      end
  end.

(** [except ValidationError as ex: raise ComplyScribeConfigError(ex.errors())],
    the clause shared by the four module functions. *)
Definition except_ValidationError {A} (ex : exn) : option (result A) :=
  match ex with
  | EValidationError errs =>
      Some (Raise (EComplyScribeConfigError (ComplyScribeConfigError_init errs)))
  | _ => None
  end.

(** ** The platform: PyYAML, pathlib and the file system *)

Class Platform := {
  (** the content of a text file *)
  text : Type;
  (** [yaml.dump(v)] *)
  yaml_dump : pyval -> text;
  (** [yaml.safe_load(t)], [None] when the text is not a YAML document *)
  yaml_safe_load : text -> option pyval;
  (** [str(Path(s))] *)
  Path : string -> string;
  (** the directories [p.parent.mkdir(parents=True)] goes through, outermost
      first and [p.parent] last *)
  parents_of : string -> list string;
}.

Inductive node `{Platform} :=
| Dir
| File (content : text).

Section FileSystem.
Context `{Platform}.

Definition is_dir (fs : gmap string node) (p : string) : bool :=
  match fs !! p with
  | Some Dir => true
  | _ => false
  end.

(** [open(file_path, "r")] followed by reading the whole file. *)
Definition open_r (fs : gmap string node) (file_path : string) : result text :=
  match fs !! file_path with
  | None => Raise EFileNotFoundError
  | Some Dir => Raise EIsADirectoryError
  | Some (File t) => Ret t
  end.

(** [mkdir(parents=True, exist_ok=True)] on the chain of directories: a
    missing one is created, an existing one is kept, a file in the way
    stops the call and what was created before stays. *)
Fixpoint mkdir (dirs : list string) (fs : gmap string node) : gmap string node * result unit :=
  match dirs with
  | [] => (fs, Ret tt)
  | d :: r =>
      match fs !! d with
      | None => mkdir r (<[d := Dir]> fs)
      | Some Dir => mkdir r fs
      | Some (File _) => (fs, Raise EFileExistsError)
      end
  end.

(** [with file_path.open("w") as f: f.write(t)]. *)
Definition open_w_write (file_path : string) (t : text) (fs : gmap string node)
  : gmap string node * result unit :=
  match fs !! file_path with
  | Some Dir => (fs, Raise EIsADirectoryError)
  | _ => (<[file_path := File t]> fs, Ret tt)
  end.
End FileSystem.

(** ** pydantic validation *)

(** The outcome of validating one value: pydantic does not stop at the first
    failure, it returns every line error of the model. *)
Inductive validated (A : Type) :=
| Valid (a : A)
| Invalid (errs : list ErrorDict).
Arguments Valid {A} a.
Arguments Invalid {A} errs.

Definition line_errors {A} (v : validated A) : list ErrorDict :=
  match v with
  | Valid _ => []
  | Invalid errs => errs
  end.

(** Fields are validated in declaration order and their errors are appended
    in that order. *)
Definition v_ap {A B} (f : validated (A -> B)) (x : validated A) : validated B :=
  match f, x with
  | Valid g, Valid a => Valid (g a)
  | Valid _, Invalid e => Invalid e
  | Invalid e, Valid _ => Invalid e
  | Invalid e1, Invalid e2 => Invalid (e1 ++ e2)
  end.
Infix "<*>" := v_ap (at level 61, left associativity).

Definition v_map {A B} (f : A -> B) (x : validated A) : validated B :=
  Valid f <*> x.

Definition line_error (ty : string) (l : list locseg) (m : string) (v : pyval) : ErrorDict :=
  {| type_ := Some ty; loc := Some l; msg := Some m; input := Some v |}.

(** [str] in lax mode. *)
Definition str_validator (l : list locseg) (v : pyval) : validated string :=
  match v with
  | VStr s => Valid s
  | _ => Invalid [line_error "string_type" l "Input should be a valid string" v]
  end.

Definition ascii_lower (c : ascii) : ascii :=
  let n := nat_of_ascii c in
  if (65 <=? n)%nat && (n <=? 90)%nat then ascii_of_nat (n + 32) else c.

Fixpoint str_lower (s : string) : string :=
  match s with
  | EmptyString => EmptyString
  | String c r => String (ascii_lower c) (str_lower r)
  end.

Definition str_in (s : string) (xs : list string) : bool :=
  existsb (String.eqb s) xs.

(** [bool] in lax mode: a boolean, the integers 0 and 1, and the usual
    spellings of yes and no in any letter case. *)
Definition bool_validator (l : list locseg) (v : pyval) : validated bool :=
  let unparsable :=
    Invalid [line_error "bool_parsing" l
               "Input should be a valid boolean, unable to interpret input" v] in
  match v with
  | VBool b => Valid b
  | VInt 0 => Valid false
  | VInt 1 => Valid true
  | VInt _ => unparsable
  | VStr s =>
      if str_in (str_lower s) ["0"; "off"; "f"; "false"; "n"; "no"] then Valid false
      else if str_in (str_lower s) ["1"; "on"; "t"; "true"; "y"; "yes"] then Valid true
      else unparsable
  | _ => Invalid [line_error "bool_type" l "Input should be a valid boolean" v]
  end.

(** [List[T]]: every item is validated, an error carries the item's index. *)
Fixpoint list_items {A} (f : list locseg -> pyval -> validated A) (l : list locseg)
    (i : nat) (xs : list pyval) : validated (list A) :=
  match xs with
  | [] => Valid []
  | x :: r => Valid cons <*> f (l ++ [LIdx i]) x <*> list_items f l (S i) r
  end.

Definition list_validator {A} (f : list locseg -> pyval -> validated A)
    (l : list locseg) (v : pyval) : validated (list A) :=
  match v with
  | VList xs => list_items f l 0 xs
  | _ => Invalid [line_error "list_type" l "Input should be a valid list" v]
  end.

(** [Optional[T]] *)
Definition nullable {A} (f : list locseg -> pyval -> validated A)
    (l : list locseg) (v : pyval) : validated (option A) :=
  match v with
  | VNone => Valid None
  | _ => v_map Some (f l v)
  end.

(** A model field with a default: the default is taken unvalidated when the
    key is missing. *)
Definition field {A} (f : list locseg -> pyval -> validated A)
    (l : list locseg) (default : A) (o : option pyval) : validated A :=
  match o with
  | None => Valid default
  | Some v => f l v
  end.

(** A model field without default. *)
Definition required_field {A} (f : list locseg -> pyval -> validated A)
    (l : list locseg) (whole : pyval) (o : option pyval) : validated A :=
  match o with
  | None => Invalid [line_error "missing" l "Field required" whole]
  | Some v => f l v
  end.

(** [UpstreamsConfig] as a field type: an instance is taken as it is, a
    dictionary is validated field by field. *)
Definition upstreams_validator (l : list locseg) (v : pyval) : validated UpstreamsConfig :=
  match v with
  | VUpstreams u => Valid u
  | VDict d =>
      Valid mkUpstreamsConfig
      <*> required_field (list_validator str_validator) (l ++ [LKey "sources"]) v
            (dict_get d "sources")
      <*> field (list_validator str_validator) (l ++ [LKey "include_models"]) ["*"]
            (dict_get d "include_models")
      <*> field (list_validator str_validator) (l ++ [LKey "exclude_models"]) []
            (dict_get d "exclude_models")
      <*> field bool_validator (l ++ [LKey "skip_validation"]) false
            (dict_get d "skip_validation")
  | _ => Invalid [line_error "model_type" l
                    "Input should be a valid dictionary or instance of UpstreamsConfig" v]
  end.

(** ** ComplyScribeConfig (lines 55-109) *)

Record ComplyScribeConfig := mkComplyScribeConfig {
  repo_path : option string;
  markdown_dir : option string;
  committer_name : option string;
  committer_email : option string;
  commit_message : option string;
  branch : option string;
  ssp_index_file : option string;
  upstreams : option UpstreamsConfig;
}.

Section Validation.
Context `{Platform}.

(** [DirectoryPath]: a string becomes a path, a path stays; the path has
    to be a directory on disk when the value is validated. *)
Definition directory_path_validator (fs : gmap string node)
    (l : list locseg) (v : pyval) : validated string :=
  let check p :=
    if is_dir fs p then Valid p
    else Invalid [line_error "path_not_directory" l
                    "Path does not point to a directory" (VPath p)] in
  match v with
  | VStr s => check (Path s)
  | VPath p => check p
  | _ => Invalid [line_error "path_type" l "Input is not a valid path" v]
  end.

(** Validation of the keyword arguments of [ComplyScribeConfig]; keys that
    are no field of the model are ignored. *)
Definition validate_ComplyScribeConfig (fs : gmap string node)
    (data : list (string * pyval)) : validated ComplyScribeConfig :=
  let opt_str k := field (nullable str_validator) [LKey k] None (dict_get data k) in
  Valid mkComplyScribeConfig
  <*> field (nullable (directory_path_validator fs)) [LKey "repo_path"] None
        (dict_get data "repo_path")
  <*> opt_str "markdown_dir"
  <*> opt_str "committer_name"
  <*> opt_str "committer_email"
  <*> opt_str "commit_message"
  <*> opt_str "branch"
  <*> opt_str "ssp_index_file"
  <*> field (nullable upstreams_validator) [LKey "upstreams"] None
        (dict_get data "upstreams").

(** The constructor called with the keyword arguments [data], and
    [ComplyScribeConfig.model_validate(data)]: the instance, or
    [ValidationError] with the line errors. *)
Definition ComplyScribeConfig_new (fs : gmap string node)
    (data : list (string * pyval)) : result ComplyScribeConfig :=
  match validate_ComplyScribeConfig fs data with
  | Valid c => Ret c
  | Invalid errs => Raise (EValidationError errs)
  end.
End Validation.

(** [IGNORED_VALUES], line 83. *)
Definition IGNORED_VALUES : list pyval := [VNone; VStr "None"; VList []].

(** An [Optional[str]] attribute as a Python value. *)
Definition py_of_opt_str (o : option string) : pyval :=
  match o with
  | Some s => VStr s
  | None => VNone
  end.

(** [str(self.repo_path)]: the string form of the path, and the text
    [None] for the value [None]. *)
Definition str_of_opt_path (o : option string) : string :=
  match o with
  | Some p => p
  | None => "None"
  end.

Definition py_of_strs (xs : list string) : pyval := VList (map VStr xs).

(** Lines 96-102: the nested dictionary of the upstreams. *)
Definition upstreams_dict (u : UpstreamsConfig) : list (string * pyval) :=
  let upstreams :=
    [("sources", py_of_strs (sources u));
     ("skip_validation", VBool (skip_validation u));
     ("include_models", py_of_strs (include_models u))] in
  match exclude_models u with
  | [] => upstreams
  | _ :: _ => dict_set upstreams "exclude_models" (py_of_strs (exclude_models u))
  end.

(** Lines 85-93: the dictionary literal. *)
Definition config_dict_literal (self : ComplyScribeConfig) : list (string * pyval) :=
  [("repo_path", VStr (str_of_opt_path (repo_path self)));
   ("markdown_dir", py_of_opt_str (markdown_dir self));
   ("ssp_index_file", py_of_opt_str (ssp_index_file self));
   ("committer_name", py_of_opt_str (committer_name self));
   ("committer_email", py_of_opt_str (committer_email self));
   ("commit_message", py_of_opt_str (commit_message self));
   ("branch", py_of_opt_str (branch self))].

(** [ComplyScribeConfig.to_yaml_dict], lines 67-109.  A model instance is
    always true, so [if self.upstreams:] asks whether the field is set. *)
Definition to_yaml_dict (self : ComplyScribeConfig) : list (string * pyval) :=
  let config_dict := config_dict_literal self in
  let config_dict :=
    match upstreams self with
    | Some u => dict_set config_dict "upstreams" (VDict (upstreams_dict u))
    | None => config_dict
    end in
  List.filter (fun item => negb (py_in (snd item) IGNORED_VALUES)) config_dict.

(** ** The module functions (lines 112-153) *)

(** [**config_yaml]: only a mapping can be unpacked into keyword arguments. *)
Definition unpack_kwargs (v : pyval) : result (list (string * pyval)) :=
  match v with
  | VDict d => Ret d
  | _ => Raise ETypeError
  end.

Section Functions.
Context `{Platform}.

Definition safe_load (t : text) : result pyval :=
  match yaml_safe_load t with
  | Some v => Ret v
  | None => Raise EYAMLError
  end.

(** The [try] block of [load_from_file], lines 115-117. *)
Definition load_from_file_body (fs : gmap string node) (file_path : string)
  : result (option ComplyScribeConfig) :=
  config_file ← open_r fs file_path;
  config_yaml ← safe_load config_file;
  kwargs ← unpack_kwargs config_yaml;
  config ← ComplyScribeConfig_new fs kwargs;
  Ret (Some config).

(** [load_from_file], lines 112-122. *)
Definition load_from_file (fs : gmap string node) (file_path : string)
  : result (option ComplyScribeConfig) :=
  try_except (load_from_file_body fs file_path)
    (fun ex =>
       match ex with
       | EValidationError errs =>
           Some (Raise (EComplyScribeConfigError (ComplyScribeConfigError_init errs)))
       | EFileNotFoundError | ETypeError => Some (Ret None)
       | _ => None
       end).

(** The [try] block of [write_to_file], lines 128-130. *)
Definition write_to_file_body (config : ComplyScribeConfig) (file_path : string)
    (fs : gmap string node) : gmap string node * result unit :=
  match mkdir (parents_of file_path) fs with
  | (fs1, Ret _) =>
      open_w_write file_path (yaml_dump (VDict (to_yaml_dict config))) fs1
  | (fs1, Raise e) => (fs1, Raise e)
  end.

(** [write_to_file], lines 125-132. *)
Definition write_to_file (config : ComplyScribeConfig) (file_path : string)
    (fs : gmap string node) : gmap string node * result unit :=
  let '(fs1, r) := write_to_file_body config file_path fs in
  (fs1, try_except r except_ValidationError).

(** [make_config], lines 135-143.  [None] and the empty dictionary are
    both false. *)
Definition make_config (fs : gmap string node)
    (values : option (list (string * pyval))) : result ComplyScribeConfig :=
  try_except
    (match values with
     | Some (item :: rest) => ComplyScribeConfig_new fs (item :: rest)
     | _ => ComplyScribeConfig_new fs []
     end)
    except_ValidationError.
End Functions.

(** ** Instances in the store, [model_copy] and [update_config] *)

(** The [__dict__] of a validated instance. *)
Definition fields_dict (c : ComplyScribeConfig) : gmap string pyval :=
  let py_of_opt {A} (f : A -> pyval) (o : option A) : pyval :=
    match o with
    | Some a => f a
    | None => VNone
    end in
  list_to_map
    [("repo_path", py_of_opt VPath (repo_path c));
     ("markdown_dir", py_of_opt_str (markdown_dir c));
     ("committer_name", py_of_opt_str (committer_name c));
     ("committer_email", py_of_opt_str (committer_email c));
     ("commit_message", py_of_opt_str (commit_message c));
     ("branch", py_of_opt_str (branch c));
     ("ssp_index_file", py_of_opt_str (ssp_index_file c));
     ("upstreams", py_of_opt VUpstreams (upstreams c))].

(** pydantic's [BaseModel.model_copy(update=...)]: a new instance whose
    [__dict__] is a copy of the original's, overwritten with the entries of
    [update]; the entries are stored as they come, nothing is validated and
    nothing is raised.  The store is a list of instance dictionaries and a
    reference is an index into it; a reference that a program holds always
    points into the store. *)
Definition model_copy (self : nat) (update : gmap string pyval)
    (h : list (gmap string pyval)) : list (gmap string pyval) * result nat :=
  let copied := update ∪ (h !!! self) in
  (h ++ [copied], Ret (length h)).

(** [update_config], lines 146-153. *)
Definition update_config (config : nat) (update : gmap string pyval)
    (h : list (gmap string pyval)) : list (gmap string pyval) * result nat :=
  let '(h1, r) := model_copy config update h in
  (h1, try_except r except_ValidationError).

(** ** The specification's wording, for comparison with the code *)

(** The path clause of a formatted violation, when the record has a path. *)
Definition path_clause (err : ErrorDict) : option string :=
  match get_truthy_loc0 (loc err) with
  | Some x => Some ("Invalid config value for " +:+ str_of_locseg x +:+ ".")
  | None => None
  end.

(** The message clause of a formatted violation, empty without a message. *)
Definition message_clause (err : ErrorDict) : string :=
  match get_truthy_str (msg err) with
  | Some m => " " +:+ m +:+ "."
  | None => EmptyString
  end.

(** The format in the specification's words: either clause is left out when
    its part is missing, and the default text stands in when both are. *)
Definition format_spec (err : ErrorDict) : string :=
  match path_clause err, get_truthy_str (msg err) with
  | None, None => "Unable to load config."
  | Some c, _ => c +:+ message_clause err
  | None, Some _ => message_clause err
  end.

(** The values that the write conversion drops. *)
Definition dropped (v : pyval) : bool :=
  match v with
  | VNone => true
  | VStr s => String.eqb s "None"
  | VList [] => true
  | _ => false
  end.

(** The nested mapping of the upstreams in the specification's words. *)
Definition upstreams_dict_spec (u : UpstreamsConfig) : list (string * pyval) :=
  [("sources", py_of_strs (sources u));
   ("skip_validation", VBool (skip_validation u));
   ("include_models", py_of_strs (include_models u))]
  ++ match exclude_models u with
     | [] => []
     | _ :: _ => [("exclude_models", py_of_strs (exclude_models u))]
     end.

(** The fixed field order of the written mapping. *)
Definition yaml_field_order : list string :=
  ["repo_path"; "markdown_dir"; "ssp_index_file"; "committer_name";
   "committer_email"; "commit_message"; "branch"; "upstreams"].

(** The write conversion in the specification's words: the fields in the
    fixed order, the upstreams last and only when set, then the drop. *)
Definition to_yaml_dict_spec (c : ComplyScribeConfig) : list (string * pyval) :=
  List.filter (fun item => negb (dropped (snd item)))
    ([("repo_path", VStr (str_of_opt_path (repo_path c)));
      ("markdown_dir", py_of_opt_str (markdown_dir c));
      ("ssp_index_file", py_of_opt_str (ssp_index_file c));
      ("committer_name", py_of_opt_str (committer_name c));
      ("committer_email", py_of_opt_str (committer_email c));
      ("commit_message", py_of_opt_str (commit_message c));
      ("branch", py_of_opt_str (branch c))]
     ++ match upstreams c with
        | Some u => [("upstreams", VDict (upstreams_dict_spec u))]
        | None => []
        end).

(** [c] occurs inside [s]. *)
Definition occurs_in (c s : string) : Prop :=
  ∃ pre post, s = pre +:+ c +:+ post.

(** The names of the model's fields, in declaration order. *)
Definition field_names : list string :=
  ["repo_path"; "markdown_dir"; "committer_name"; "committer_email";
   "commit_message"; "branch"; "ssp_index_file"; "upstreams"].

(** The all-default configuration. *)
Definition default_config : ComplyScribeConfig :=
  {| repo_path := None; markdown_dir := None; committer_name := None;
     committer_email := None; commit_message := None; branch := None;
     ssp_index_file := None; upstreams := None |}.

(** *** Mappings that conform to the schema *)

Definition is_str (v : pyval) : bool :=
  match v with
  | VStr _ => true
  | _ => false
  end.

Definition is_strs (v : pyval) : bool :=
  match v with
  | VList xs => forallb is_str xs
  | _ => false
  end.

Definition is_bool (v : pyval) : bool :=
  match v with
  | VBool _ => true
  | _ => false
  end.

Definition conforms_opt (ok : pyval -> bool) (o : option pyval) : bool :=
  match o with
  | None | Some VNone => true
  | Some v => ok v
  end.

Definition conforms_upstreams (v : pyval) : bool :=
  match v with
  | VUpstreams _ => true
  | VDict d =>
      match dict_get d "sources" with
      | Some v => is_strs v
      | None => false
      end
      && from_option is_strs true (dict_get d "include_models")
      && from_option is_strs true (dict_get d "exclude_models")
      && from_option is_bool true (dict_get d "skip_validation")
  | _ => false
  end.

(** The corresponding value of a key of the mapping, read at the type of
    its field, and its documented default. *)
Definition str_value (o : option pyval) : option string :=
  match o with
  | Some (VStr s) => Some s
  | _ => None
  end.

Definition strs_value (default : list string) (o : option pyval) : list string :=
  match o with
  | Some (VList xs) => omap (fun x => str_value (Some x)) xs
  | _ => default
  end.

Definition bool_value (default : bool) (o : option pyval) : bool :=
  match o with
  | Some (VBool b) => b
  | _ => default
  end.

Definition upstreams_value (o : option pyval) : option UpstreamsConfig :=
  match o with
  | Some (VUpstreams u) => Some u
  | Some (VDict d) =>
      Some {| sources := strs_value [] (dict_get d "sources");
              include_models := strs_value ["*"] (dict_get d "include_models");
              exclude_models := strs_value [] (dict_get d "exclude_models");
              skip_validation := bool_value false (dict_get d "skip_validation") |}
  | _ => None
  end.

Section Conformance.
Context `{Platform}.

Definition is_existing_dir (fs : gmap string node) (v : pyval) : bool :=
  match v with
  | VStr s => is_dir fs (Path s)
  | VPath p => is_dir fs p
  | _ => false
  end.

(** A mapping conforms to the schema when every field it names holds a
    value of the field's type (or [None]) and its [repo_path] is an
    existing directory.  Keys that name no field are allowed. *)
Definition conforms (fs : gmap string node) (m : list (string * pyval)) : bool :=
  conforms_opt (is_existing_dir fs) (dict_get m "repo_path")
  && forallb (fun k => conforms_opt is_str (dict_get m k))
       ["markdown_dir"; "committer_name"; "committer_email"; "commit_message";
        "branch"; "ssp_index_file"]
  && conforms_opt conforms_upstreams (dict_get m "upstreams").

(** The path that the mapping's [repo_path] denotes. *)
Definition path_value (o : option pyval) : option string :=
  match o with
  | Some (VStr s) => Some (Path s)
  | Some (VPath p) => Some p
  | _ => None
  end.

(** Field by field, the value in the mapping or the default. *)
Definition config_of_mapping (m : list (string * pyval)) : ComplyScribeConfig :=
  {| repo_path := path_value (dict_get m "repo_path");
     markdown_dir := str_value (dict_get m "markdown_dir");
     committer_name := str_value (dict_get m "committer_name");
     committer_email := str_value (dict_get m "committer_email");
     commit_message := str_value (dict_get m "commit_message");
     branch := str_value (dict_get m "branch");
     ssp_index_file := str_value (dict_get m "ssp_index_file");
     upstreams := upstreams_value (dict_get m "upstreams") |}.

(** What the validators report for one field of the model. *)
Definition field_errors (fs : gmap string node) (data : list (string * pyval))
    (k : string) : list ErrorDict :=
  if String.eqb k "repo_path" then
    line_errors (field (nullable (directory_path_validator fs)) [LKey k] None
                   (dict_get data k))
  else if String.eqb k "upstreams" then
    line_errors (field (nullable upstreams_validator) [LKey k] None (dict_get data k))
  else if str_in k field_names then
    line_errors (field (nullable str_validator) [LKey k] None (dict_get data k))
  else [].

(** A [repo_path] value that names a path which is no directory on disk. *)
Definition not_a_directory (fs : gmap string node) (v : pyval) : bool :=
  match v with
  | VStr s => negb (is_dir fs (Path s))
  | VPath p => negb (is_dir fs p)
  | _ => false
  end.

(** Nothing is at the path, or the file there holds a YAML document that
    is no mapping. *)
Definition no_mapping_at (fs : gmap string node) (file_path : string) : Prop :=
  fs !! file_path = None
  ∨ ∃ t v, fs !! file_path = Some (File t) ∧ yaml_safe_load t = Some v
           ∧ ∀ d, v ≠ VDict d.

(** The file at the path holds a YAML document that is the mapping [data]. *)
Definition mapping_at (fs : gmap string node) (file_path : string)
    (data : list (string * pyval)) : Prop :=
  ∃ t, fs !! file_path = Some (File t) ∧ yaml_safe_load t = Some (VDict data).

(** A validated configuration: its path is a path object in normal form
    and an existing directory. *)
Definition valid_config (fs : gmap string node) (c : ComplyScribeConfig) : Prop :=
  match repo_path c with
  | Some p => Path p = p ∧ is_dir fs p = true
  | None => True
  end.

(** PyYAML reads back the document it wrote, as an equal value. *)
Definition yaml_reads_back (v : pyval) : Prop :=
  ∃ v', yaml_safe_load (yaml_dump v) = Some v' ∧ py_eq v v' = true.
End Conformance.

(** No string field, and not the string form of the path, is the text
    [None]. *)
Definition is_None_text (o : option string) : bool :=
  match o with
  | Some s => String.eqb s "None"
  | None => false
  end.

Definition has_None_text (c : ComplyScribeConfig) : bool :=
  existsb is_None_text
    [repo_path c; markdown_dir c; committer_name c; committer_email c;
     commit_message c; branch c; ssp_index_file c].

(** No field is left at an empty default: every optional field is set and
    every list of the upstreams has an item. *)
Definition no_field_left_empty (c : ComplyScribeConfig) : bool :=
  forallb (fun o : option string => bool_decide (is_Some o))
    [repo_path c; markdown_dir c; committer_name c; committer_email c;
     commit_message c; branch c; ssp_index_file c]
  && match upstreams c with
     | Some u =>
         negb (bool_decide (sources u = []))
         && negb (bool_decide (include_models u = []))
         && negb (bool_decide (exclude_models u = []))
     | None => false
     end.

(** ** A concrete platform and disk, for the examples *)

Module Demo.
(** A platform whose YAML text is the document itself and whose paths are
    written in normal form already. *)
Definition platform : Platform :=
  {| text := pyval;
     yaml_dump := fun v => v;
     yaml_safe_load := fun t => Some t;
     Path := fun s => s;
     parents_of := fun _ => ["/etc"; "/etc/complyscribe"] |}.

Definition config_path : string := "/etc/complyscribe/config.yml".

(** A disk with one repository directory and one file holding a list. *)
Definition fs : gmap string (@node platform) :=
  {[ "/srv/repo" := @Dir platform;
     "/srv/list.yml" := @File platform (VList [VStr "a"; VStr "b"]) ]}.

Definition all_set : ComplyScribeConfig :=
  {| repo_path := Some "/srv/repo";
     markdown_dir := Some "md";
     committer_name := Some "bot";
     committer_email := Some "bot@example.org";
     commit_message := Some "sync";
     branch := Some "main";
     ssp_index_file := Some "ssp-index.json";
     upstreams := Some {| sources := ["https://example.org/repo@main"];
                          include_models := ["*"];
                          exclude_models := ["x"];
                          skip_validation := true |} |}.

(** The same with a branch that is called None. *)
Definition branch_None : ComplyScribeConfig :=
  {| repo_path := repo_path all_set;
     markdown_dir := markdown_dir all_set;
     committer_name := committer_name all_set;
     committer_email := committer_email all_set;
     commit_message := commit_message all_set;
     branch := Some "None";
     ssp_index_file := ssp_index_file all_set;
     upstreams := upstreams all_set |}.
End Demo.

(** ** Notions used in the statements *)

(** What the [try] block of [write_to_file] can end with: success, or one
    of the two failures of the file system. *)
Definition disk_outcome (r : result unit) : Prop :=
  r = Ret tt ∨ r = Raise EFileExistsError ∨ r = Raise EIsADirectoryError.

(** An error reported under the location [l], with a message. *)
Definition under (l : list locseg) (e : ErrorDict) : Prop :=
  ∃ l' c m, loc e = Some (l ++ l') ∧ msg e = Some (String c m).

(** A validator that reports every error under the location it is given. *)
Definition located {A} (f : list locseg → pyval → validated A) : Prop :=
  ∀ l v, Forall (under l) (line_errors (f l v)).

(** The clause of a violation of the field [k] with the message [m]. *)
Definition violation_clause (k m : string) : string :=
  "Invalid config value for " +:+ k +:+ ". " +:+ m +:+ ".".

(** A mapping with a [committer_name] of the wrong type and a [repo_path]
    that does not exist. *)
Definition two_invalid_fields : list (string * pyval) :=
  [("repo_path", VStr "/srv/nowhere"); ("committer_name", VInt 3)].

(** A conforming mapping that leaves the optional keys of the upstreams
    out. *)
Definition conforming_mapping : list (string * pyval) :=
  [("repo_path", VStr "/srv/repo");
   ("branch", VStr "main");
   ("upstreams", VDict [("sources", VList [VStr "https://example.org/repo@main"])])].

(** What an entry of the first dictionary tells about the second, when the
    two are equal. *)
Definition same_entry (d d' : list (string * pyval)) (k : string) : Prop :=
  match dict_get d k with
  | Some x => ∃ y, dict_get d' k = Some y ∧ py_eq x y = true
  | None => dict_get d' k = None
  end.

(** The entries of the written mapping, when no field is the text [None]:
    a set field is written, an unset one is left out. *)
Definition written_entries (c : ComplyScribeConfig) : list (string * option pyval) :=
  [("repo_path", VStr <$> repo_path c);
   ("markdown_dir", VStr <$> markdown_dir c);
   ("ssp_index_file", VStr <$> ssp_index_file c);
   ("committer_name", VStr <$> committer_name c);
   ("committer_email", VStr <$> committer_email c);
   ("commit_message", VStr <$> commit_message c);
   ("branch", VStr <$> branch c);
   ("upstreams", (fun u => VDict (upstreams_dict_spec u)) <$> upstreams c)].

(** ** Notions used in the further properties *)


(** What the write conversion holds for an optional string: nothing when it
    is unset or the text [None], the string otherwise. *)
Definition written_value (o : option string) : option pyval :=
  if is_None_text o then None else VStr <$> o.

(** What the write conversion holds under each of its keys. *)
Definition written_lookups (c : ComplyScribeConfig) : list (string * option pyval) :=
  [("repo_path", written_value (repo_path c));
   ("markdown_dir", written_value (markdown_dir c));
   ("ssp_index_file", written_value (ssp_index_file c));
   ("committer_name", written_value (committer_name c));
   ("committer_email", written_value (committer_email c));
   ("commit_message", written_value (commit_message c));
   ("branch", written_value (branch c));
   ("upstreams", (fun u => VDict (upstreams_dict u)) <$> upstreams c)].

(** A validation outcome that, when it is a failure, has an error to show. *)
Definition reports {A} (v : validated A) : Prop :=
  match v with
  | Invalid [] => False
  | _ => True
  end.

(** A validator whose failures always have an error to show. *)
Definition reporting {A} (f : list locseg → pyval → validated A) : Prop :=
  ∀ l v, reports (f l v).

(** A formatted message that names a field of the model. *)
Definition names_a_field (s : string) : Prop :=
  ∃ k m, k ∈ field_names ∧ s = violation_clause k m.

(** The exceptions that [load_from_file] lets through or raises itself. *)
Definition load_failure (ex : exn) : Prop :=
  (∃ e, ex = EComplyScribeConfigError e)
  ∨ ex = EIsADirectoryError
  ∨ ex = EYAMLError.

(** The disk of the examples with a configuration file on it. *)
Definition disk_with_config : gmap string (@node Demo.platform) :=
  <[ Demo.config_path := @File Demo.platform (VDict conforming_mapping) ]> Demo.fs.

(** A mapping whose upstreams name no sources. *)
Definition upstreams_without_sources : list (string * pyval) :=
  [("branch", VStr "main"); ("upstreams", VDict [("skip_validation", VBool true)])].

(** * Properties *)

(** ** Strings *)

Lemma append_empty_r (s : string) : s +:+ EmptyString = s.
Proof. induction s as [|c s IH]; simpl; [reflexivity | now f_equal]. Qed.

Lemma append_assoc (a b c : string) : (a +:+ b) +:+ c = a +:+ (b +:+ c).
Proof. induction a as [|x a IH]; simpl; [reflexivity | now f_equal]. Qed.

Lemma concat_no_separator (l : list string) :
  String.concat EmptyString l = foldr String.append EmptyString l.
Proof.
  induction l as [|x l IH]; [reflexivity|].
  destruct l as [|y l].
  - simpl. now rewrite append_empty_r.
  - change (String.concat EmptyString (x :: y :: l))
      with (x +:+ EmptyString +:+ String.concat EmptyString (y :: l)).
    rewrite IH. reflexivity.
Qed.

Lemma occurs_in_refl (s : string) : occurs_in s s.
Proof. exists EmptyString, EmptyString. simpl. now rewrite append_empty_r. Qed.

Lemma occurs_in_append_l (c a b : string) : occurs_in c a → occurs_in c (a +:+ b).
Proof.
  intros (pre & post & ->). exists pre, (post +:+ b).
  now rewrite !append_assoc.
Qed.

Lemma occurs_in_append_r (c a b : string) : occurs_in c b → occurs_in c (a +:+ b).
Proof.
  intros (pre & post & ->). exists (a +:+ pre), post.
  now rewrite !append_assoc.
Qed.

Lemma occurs_in_trans (a b c : string) : occurs_in a b → occurs_in b c → occurs_in a c.
Proof.
  intros (p1 & q1 & ->) (p2 & q2 & ->). exists (p2 +:+ p1), (q1 +:+ q2).
  now rewrite !append_assoc.
Qed.

(** A string of the list occurs in the joined list. *)
Lemma occurs_in_concat (c : string) (l : list string) :
  c ∈ l → occurs_in c (String.concat EmptyString l).
Proof.
  rewrite concat_no_separator.
  induction 1 as [c l|c x l _ IH]; simpl.
  - apply occurs_in_append_l, occurs_in_refl.
  - now apply occurs_in_append_r.
Qed.

(** ** The error type *)

Lemma _format_clauses (err : ErrorDict) :
  _format err
  = from_option id "Unable to load config." (path_clause err) +:+ message_clause err.
Proof.
  unfold _format, path_clause, message_clause.
  destruct (get_truthy_loc0 (loc err)), (get_truthy_str (msg err)); simpl;
    first [reflexivity | now rewrite append_empty_r].
Qed.

(** C2, as the code has it: a violation is formatted as its path clause,
    ["Invalid config value for <first-path-segment>."], or as the text
    ["Unable to load config."] when it has no path, followed by the message
    clause [" <message>."] when it has a message; the error carries the list
    of the formatted violations in order, and its string is their
    concatenation with nothing in between. *)
Theorem config_error_messages (errs : list ErrorDict) :
  errors (ComplyScribeConfigError_init errs)
  = map (fun err => from_option id "Unable to load config." (path_clause err)
                    +:+ message_clause err) errs
  ∧ ComplyScribeConfigError_str (ComplyScribeConfigError_init errs)
    = foldr String.append EmptyString (errors (ComplyScribeConfigError_init errs))
  ∧ length (errors (ComplyScribeConfigError_init errs)) = length errs.
Proof.
  split; [|split].
  - simpl. apply map_ext. intros err. apply _format_clauses.
  - unfold ComplyScribeConfigError_str. apply concat_no_separator.
  - simpl. apply length_map.
Qed.

(** C2, as the specification words it, fails for a violation that has a
    message and no path: the code keeps the default text in front of the
    message clause. *)
Lemma format_message_without_path :
  _format {| type_ := None; loc := None; msg := Some "boom"; input := None |}
  = "Unable to load config. boom."
  ∧ format_spec {| type_ := None; loc := None; msg := Some "boom"; input := None |}
    = " boom."
  ∧ _format {| type_ := None; loc := None; msg := Some "boom"; input := None |}
    ≠ format_spec {| type_ := None; loc := None; msg := Some "boom"; input := None |}.
Proof. repeat split. discriminate. Qed.

(** ** The write conversion *)

Lemma py_in_IGNORED_VALUES (v : pyval) : py_in v IGNORED_VALUES = dropped v.
Proof.
  unfold py_in, IGNORED_VALUES.
  destruct v as [| | |s| |xs| |]; cbn [existsb py_eq dropped orb]; try reflexivity.
  - rewrite (String.eqb_sym "None" s). now destruct (String.eqb s "None").
  - destruct xs; reflexivity.
Qed.

Lemma upstreams_dict_is_spec (u : UpstreamsConfig) :
  upstreams_dict u = upstreams_dict_spec u.
Proof. unfold upstreams_dict, upstreams_dict_spec. destruct (exclude_models u); reflexivity. Qed.

Lemma filter_keys_sublist {A} (f : string * A → bool) (l : list (string * A)) :
  sublist (map fst (List.filter f l)) (map fst l).
Proof.
  induction l as [|x l IH]; simpl; [constructor|].
  destruct (f x); simpl; now constructor.
Qed.

Lemma to_yaml_dict_eq_spec (c : ComplyScribeConfig) : to_yaml_dict c = to_yaml_dict_spec c.
Proof.
  unfold to_yaml_dict, to_yaml_dict_spec.
  erewrite List.filter_ext; [|intros item; now rewrite py_in_IGNORED_VALUES].
  destruct (upstreams c) as [u|].
  - rewrite upstreams_dict_is_spec. reflexivity.
  - now rewrite app_nil_r.
Qed.

(** C4: the write conversion is the mapping of the seven fields in the
    fixed order, [repo_path] as its string form or the text [None], with the
    upstreams last and only when set, their nested mapping holding
    [sources], [skip_validation], [include_models] and, only when it is not
    empty, [exclude_models]; every entry whose value is [None], the text
    [None] or the empty list is then dropped.  So the keys come in the
    fixed order and no dropped value is left. *)
Theorem to_yaml_dict_fixed_order_and_drop (c : ComplyScribeConfig) :
  to_yaml_dict c = to_yaml_dict_spec c
  ∧ sublist (map fst (to_yaml_dict c)) yaml_field_order
  ∧ Forall (fun item => dropped (snd item) = false) (to_yaml_dict c).
Proof.
  split; [apply to_yaml_dict_eq_spec|].
  rewrite to_yaml_dict_eq_spec. unfold to_yaml_dict_spec. split.
  - etrans; [apply filter_keys_sublist|].
    destruct (upstreams c); simpl; unfold yaml_field_order.
    + reflexivity.
    + repeat apply sublist_skip || apply sublist_cons. repeat constructor.
  - apply Forall_forall. intros item Hin.
    apply list_elem_of_In, List.filter_In in Hin as [_ Hin].
    now apply negb_true_iff in Hin.
Qed.

(** ** Writing *)

Section Writing.
Context `{Platform}.

Lemma mkdir_outcome (dirs : list string) (fs : gmap string node) :
  disk_outcome (mkdir dirs fs).2.
Proof.
  revert fs. induction dirs as [|d dirs IH]; intros fs; simpl.
  - now left.
  - destruct (fs !! d) as [[|t]|]; [apply IH | right; now left | apply IH].
Qed.

Lemma open_w_write_outcome (p : string) (t : text) (fs : gmap string node) :
  disk_outcome (open_w_write p t fs).2.
Proof.
  unfold open_w_write.
  destruct (fs !! p) as [[|t']|]; simpl; [right; now right | now left | now left].
Qed.

Lemma write_to_file_body_outcome (c : ComplyScribeConfig) (p : string)
    (fs : gmap string node) :
  disk_outcome (write_to_file_body c p fs).2.
Proof.
  unfold write_to_file_body.
  pose proof (mkdir_outcome (parents_of p) fs) as Hm.
  destruct (mkdir (parents_of p) fs) as [fs1 [[]|e]]; simpl in *.
  - apply open_w_write_outcome.
  - exact Hm.
Qed.

Lemma write_to_file_keeps_outcome (c : ComplyScribeConfig) (p : string)
    (fs : gmap string node) :
  (write_to_file c p fs).2 = (write_to_file_body c p fs).2.
Proof.
  unfold write_to_file.
  pose proof (write_to_file_body_outcome c p fs) as Hb.
  destruct (write_to_file_body c p fs) as [fs1 r]; simpl in *.
  destruct Hb as [->|[->| ->]]; reflexivity.
Qed.

(** C10: the [try] block of [write_to_file] never raises
    [ValidationError], the conversion [to_yaml_dict] being a plain
    reading of the fields, so the [except] clause never runs and
    [write_to_file] never raises the configuration error; it ends as its
    [try] block does. *)
Theorem write_to_file_never_config_error (c : ComplyScribeConfig) (p : string)
    (fs : gmap string node) :
  (∀ errs, (write_to_file_body c p fs).2 ≠ Raise (EValidationError errs))
  ∧ (∀ e, (write_to_file c p fs).2 ≠ Raise (EComplyScribeConfigError e))
  ∧ (write_to_file c p fs).2 = (write_to_file_body c p fs).2.
Proof.
  pose proof (write_to_file_body_outcome c p fs) as Hb.
  split; [|split].
  - intros errs Heq. rewrite Heq in Hb. destruct Hb as [?|[?|?]]; discriminate.
  - intros e Heq. rewrite write_to_file_keeps_outcome in Heq.
    rewrite Heq in Hb. destruct Hb as [?|[?|?]]; discriminate.
  - apply write_to_file_keeps_outcome.
Qed.
End Writing.

(** ** Loading *)

Section Loading.
Context `{Platform}.

(** C3: when nothing is at the path, and when the file there holds a YAML
    document that is no mapping, [load_from_file] returns [None] and
    raises nothing. *)
Theorem load_from_file_no_mapping (fs : gmap string node) (file_path : string) :
  no_mapping_at fs file_path → load_from_file fs file_path = Ret None.
Proof.
  unfold load_from_file, load_from_file_body, open_r.
  intros [Hnone|(t & v & Hfile & Hload & Hv)].
  - rewrite Hnone. reflexivity.
  - rewrite Hfile. cbn. unfold safe_load. rewrite Hload. cbn.
    destruct v; try reflexivity. now destruct (Hv d).
Qed.
End Loading.

Lemma load_from_file_no_mapping_witness :
  @load_from_file Demo.platform Demo.fs "/srv/missing.yml" = Ret None
  ∧ @load_from_file Demo.platform Demo.fs "/srv/list.yml" = Ret None.
Proof.
  split; apply (@load_from_file_no_mapping Demo.platform).
  - left. vm_compute. reflexivity.
  - right. exists (VList [VStr "a"; VStr "b"]), (VList [VStr "a"; VStr "b"]).
    split; [vm_compute; reflexivity|]. split; [reflexivity|]. discriminate.
Defined.

(** ** Copy with update *)

(** C6: [update_config] returns a new instance that has the value of
    [update] in every field that [update] names and the value of the
    original in every other field, and the original instance is in the
    store as it was.  This holds for every update, valid or not. *)
Theorem update_config_frame (h : list (gmap string pyval)) (config : nat)
    (update o : gmap string pyval) :
  h !! config = Some o →
  ∃ h' copied o',
    update_config config update h = (h', Ret copied)
    ∧ h' !! config = Some o
    ∧ copied ≠ config
    ∧ h' !! copied = Some o'
    ∧ (∀ k v, update !! k = Some v → o' !! k = Some v)
    ∧ (∀ k, update !! k = None → o' !! k = o !! k).
Proof.
  intros Ho. exists (h ++ [update ∪ o]), (length h), (update ∪ o).
  pose proof (lookup_lt_Some _ _ _ Ho) as Hlt.
  repeat split.
  - unfold update_config, model_copy. cbn.
    now rewrite (list_lookup_total_correct _ _ _ Ho).
  - now rewrite lookup_app_l.
  - lia.
  - rewrite lookup_app_r by lia. now rewrite Nat.sub_diag.
  - intros k v Hk. now apply lookup_union_Some_l.
  - intros k Hk. now apply lookup_union_r.
Qed.

Lemma update_config_frame_witness :
  ∃ h' copied o',
    update_config 0 {[ "branch" := VStr "release" ]} [fields_dict Demo.all_set]
    = (h', Ret copied)
    ∧ h' !! 0 = Some (fields_dict Demo.all_set)
    ∧ copied ≠ 0
    ∧ h' !! copied = Some o'
    ∧ (∀ k v, ({[ "branch" := VStr "release" ]} : gmap string pyval) !! k = Some v
              → o' !! k = Some v)
    ∧ (∀ k, ({[ "branch" := VStr "release" ]} : gmap string pyval) !! k = None
            → o' !! k = fields_dict Demo.all_set !! k).
Proof.
  apply (update_config_frame [fields_dict Demo.all_set] 0). reflexivity.
Defined.

(** C1, where the code departs from it: [update_config] stores an override
    as it comes.  With a number for [committer_name] it returns the copy,
    which holds the number, although the fields of the copy do not pass the
    validation of the model. *)
Theorem update_config_does_not_validate :
  update_config 0 {[ "committer_name" := VInt 123 ]} [fields_dict default_config]
  = ([fields_dict default_config;
      {[ "committer_name" := VInt 123 ]} ∪ fields_dict default_config],
     Ret 1)
  ∧ ({[ "committer_name" := VInt 123 ]} ∪ fields_dict default_config)
      !! "committer_name" = Some (VInt 123)
  ∧ @validate_ComplyScribeConfig Demo.platform Demo.fs
      (map_to_list ({[ "committer_name" := VInt 123 ]} ∪ fields_dict default_config))
    = Invalid [line_error "string_type" [LKey "committer_name"]
                 "Input should be a valid string" (VInt 123)].
Proof. repeat split; vm_compute; reflexivity. Qed.

(** ** Validation *)

Lemma line_errors_ap {A B} (f : validated (A → B)) (x : validated A) :
  line_errors (f <*> x) = line_errors f ++ line_errors x.
Proof. destruct f, x; simpl; now rewrite ?app_nil_r. Qed.

Lemma line_errors_nil {A} (v : validated A) :
  line_errors v ≠ [] → v = Invalid (line_errors v).
Proof. destruct v; simpl; [congruence | reflexivity]. Qed.

Lemma under_line_error (ty : string) (l : list locseg) (c : ascii) (m : string) (v : pyval) :
  under l (line_error ty l (String c m) v).
Proof. exists [], c, m. simpl. now rewrite app_nil_r. Qed.

Lemma under_prefix (l k : list locseg) (e : ErrorDict) : under (l ++ k) e → under l e.
Proof. intros (l' & c & m & Hl & Hm). exists (k ++ l'), c, m. now rewrite app_assoc. Qed.

Lemma Forall_line_errors_ap {A B} (P : ErrorDict → Prop)
    (f : validated (A → B)) (x : validated A) :
  Forall P (line_errors f) → Forall P (line_errors x) → Forall P (line_errors (f <*> x)).
Proof. intros Hf Hx. rewrite line_errors_ap. now apply Forall_app. Qed.

(** Closes a goal on the errors of a validator that is a plain case
    distinction. *)
Ltac line_errors_under :=
  repeat first [apply under_line_error | constructor].

Lemma str_validator_located : located str_validator.
Proof. intros l v. destruct v; simpl; line_errors_under. Qed.

Lemma bool_validator_located : located bool_validator.
Proof.
  intros l v. unfold bool_validator.
  destruct v as [|b|n|s| | | |]; simpl; try solve [line_errors_under].
  - destruct n as [|[]|]; simpl; line_errors_under.
  - repeat match goal with |- context [if ?b then _ else _] => destruct b end; simpl;
      line_errors_under.
Qed.

Lemma list_items_located {A} (f : list locseg → pyval → validated A) :
  located f → ∀ l i xs, Forall (under l) (line_errors (list_items f l i xs)).
Proof.
  intros Hf l i xs. revert i. induction xs as [|x xs IH]; intros i; cbn [list_items].
  - constructor.
  - apply Forall_line_errors_ap; [apply Forall_line_errors_ap|].
    + constructor.
    + eapply Forall_impl; [apply Hf|]. intros e. apply under_prefix.
    + apply IH.
Qed.

Lemma list_validator_located {A} (f : list locseg → pyval → validated A) :
  located f → located (list_validator f).
Proof.
  intros Hf l v. destruct v; simpl;
    try solve [line_errors_under].
  now apply list_items_located.
Qed.

Lemma nullable_located {A} (f : list locseg → pyval → validated A) :
  located f → located (nullable f).
Proof.
  intros Hf l v. unfold nullable, v_map.
  destruct v; try (apply Forall_line_errors_ap; [constructor | apply Hf]).
  constructor.
Qed.

Lemma field_located {A} (f : list locseg → pyval → validated A) l d o :
  located f → Forall (under l) (line_errors (field f l d o)).
Proof. intros Hf. destruct o; simpl; [apply Hf | constructor]. Qed.

Lemma required_field_located {A} (f : list locseg → pyval → validated A) l k whole o :
  located f → Forall (under l) (line_errors (required_field f (l ++ k) whole o)).
Proof.
  intros Hf. destruct o; simpl.
  - eapply Forall_impl; [apply Hf|]. intros e. apply under_prefix.
  - repeat constructor. eapply under_prefix, under_line_error.
Qed.

Lemma upstreams_validator_located : located upstreams_validator.
Proof.
  intros l v. destruct v; try solve [simpl; line_errors_under].
  unfold upstreams_validator. repeat apply Forall_line_errors_ap.
  - constructor.
  - apply required_field_located, list_validator_located, str_validator_located.
  - eapply Forall_impl; [apply field_located, list_validator_located,
      str_validator_located|]. intros e. apply under_prefix.
  - eapply Forall_impl; [apply field_located, list_validator_located,
      str_validator_located|]. intros e. apply under_prefix.
  - eapply Forall_impl; [apply field_located, bool_validator_located|].
    intros e. apply under_prefix.
Qed.

(** The formatted text of an error reported under a field. *)
Lemma _format_under (k : string) (e : ErrorDict) :
  under [LKey k] e →
  ∃ m, _format e = "Invalid config value for " +:+ k +:+ ". " +:+ m +:+ ".".
Proof.
  intros (l' & c & m & Hl & Hm). exists (String c m).
  unfold _format. rewrite Hl, Hm. simpl. rewrite !append_assoc. reflexivity.
Qed.

Section Validation_facts.
Context `{Platform}.

Lemma directory_path_validator_located (fs : gmap string node) :
  located (directory_path_validator fs).
Proof.
  intros l v. unfold directory_path_validator.
  destruct v; simpl; try solve [line_errors_under].
  - destruct (is_dir fs (Path s)); simpl; line_errors_under.
  - destruct (is_dir fs s); simpl; line_errors_under.
Qed.

Lemma field_errors_located (fs : gmap string node) data k :
  Forall (under [LKey k]) (field_errors fs data k).
Proof.
  unfold field_errors.
  destruct (String.eqb k "repo_path");
    [apply field_located, nullable_located, directory_path_validator_located|].
  destruct (String.eqb k "upstreams");
    [apply field_located, nullable_located, upstreams_validator_located|].
  destruct (str_in k field_names);
    [apply field_located, nullable_located, str_validator_located | constructor].
Qed.

(** Validation reports the errors of every field, in declaration order. *)
Lemma validate_line_errors (fs : gmap string node) data :
  line_errors (validate_ComplyScribeConfig fs data)
  = flat_map (field_errors fs data) field_names.
Proof.
  unfold validate_ComplyScribeConfig. rewrite !line_errors_ap.
  cbn. rewrite ?app_nil_r, <- ?app_assoc. reflexivity.
Qed.

Lemma field_errors_names (fs : gmap string node) data k :
  field_errors fs data k ≠ [] → k ∈ field_names.
Proof.
  unfold field_errors. intros Hne.
  destruct (String.eqb k "repo_path") eqn:E1;
    [apply String.eqb_eq in E1; rewrite E1; apply list_elem_of_In; simpl; tauto|].
  destruct (String.eqb k "upstreams") eqn:E2;
    [apply String.eqb_eq in E2; rewrite E2; apply list_elem_of_In; simpl; tauto|].
  destruct (str_in k field_names) eqn:Hin; [|congruence].
  apply existsb_exists in Hin as (k' & Hin & ->%String.eqb_eq).
  now apply list_elem_of_In.
Qed.

Lemma make_config_Some (fs : gmap string node) data :
  make_config fs (Some data)
  = try_except (ComplyScribeConfig_new fs data) except_ValidationError.
Proof. destruct data; reflexivity. Qed.

Lemma load_from_file_mapping (fs : gmap string node) file_path data :
  mapping_at fs file_path data →
  load_from_file fs file_path
  = match validate_ComplyScribeConfig fs data with
    | Valid c => Ret (Some c)
    | Invalid errs => Raise (EComplyScribeConfigError (ComplyScribeConfigError_init errs))
    end.
Proof.
  intros (t & Hfile & Hload).
  unfold load_from_file, load_from_file_body, open_r, safe_load.
  rewrite Hfile. cbn. rewrite Hload. cbn. unfold ComplyScribeConfig_new.
  now destruct (validate_ComplyScribeConfig fs data).
Qed.

(** One invalid field is enough for the construction to fail, and the
    error then has the formatted line errors of all fields, among them a
    clause for this field. *)
Lemma invalid_field_reported (fs : gmap string node) data k :
  field_errors fs data k ≠ [] →
  ∃ e, make_config fs (Some data) = Raise (EComplyScribeConfigError e)
     ∧ (∀ file_path, mapping_at fs file_path data →
          load_from_file fs file_path = Raise (EComplyScribeConfigError e))
     ∧ errors e = map _format (flat_map (field_errors fs data) field_names)
     ∧ ∃ m, "Invalid config value for " +:+ k +:+ ". " +:+ m +:+ "." ∈ errors e.
Proof.
  intros Hne.
  pose proof (field_errors_names _ _ _ Hne) as Hk.
  assert (line_errors (validate_ComplyScribeConfig fs data) ≠ []) as Hinv.
  { rewrite validate_line_errors. intros Hnil. apply Hne.
    destruct (field_errors fs data k) as [|e0 r] eqn:He; [reflexivity|].
    assert (e0 ∈ flat_map (field_errors fs data) field_names) as Hin.
    { apply list_elem_of_In, in_flat_map. exists k.
      split; [now apply list_elem_of_In | rewrite He; now left]. }
    rewrite Hnil in Hin. now apply not_elem_of_nil in Hin. }
  apply line_errors_nil in Hinv.
  exists (ComplyScribeConfigError_init (line_errors (validate_ComplyScribeConfig fs data))).
  split; [|split; [|split]].
  - rewrite make_config_Some. unfold ComplyScribeConfig_new. now rewrite Hinv.
  - intros file_path Hat. rewrite (load_from_file_mapping _ _ _ Hat). now rewrite Hinv.
  - simpl. now rewrite validate_line_errors.
  - destruct (field_errors fs data k) as [|e0 r] eqn:He; [congruence|].
    pose proof (field_errors_located fs data k) as Hloc. rewrite He in Hloc.
    apply Forall_cons in Hloc as [Hloc _].
    destruct (_format_under _ _ Hloc) as [m Hm]. exists m. rewrite <- Hm.
    simpl. rewrite validate_line_errors.
    apply list_elem_of_fmap. exists e0. split; [reflexivity|].
    apply list_elem_of_In, in_flat_map. exists k.
    split; [now apply list_elem_of_In | rewrite He; now left].
Qed.
End Validation_facts.

Lemma violation_clause_names_field (k m : string) : occurs_in k (violation_clause k m).
Proof. now exists "Invalid config value for ", (". " +:+ m +:+ "."). Qed.

Lemma violation_clause_field_inj (k1 k2 m1 m2 : string) :
  k1 ∈ field_names → k2 ∈ field_names →
  violation_clause k1 m1 = violation_clause k2 m2 → k1 = k2.
Proof.
  intros H1%list_elem_of_In H2%list_elem_of_In Heq.
  unfold violation_clause in Heq. simpl in H1, H2.
  repeat destruct H1 as [<-|H1]; try contradiction;
    repeat destruct H2 as [<-|H2]; try contradiction;
    first [reflexivity | simpl in Heq; discriminate Heq].
Qed.

Section Reporting.
Context `{Platform}.

(** C5: when a mapping fails validation, in [make_config] or read from a
    file by [load_from_file], the error carries the formatted violations
    of all fields in one pass; with two invalid fields its list has a
    clause for each, the two are different, and both occur in the
    combined message. *)
Theorem every_invalid_field_is_reported (fs : gmap string node)
    (data : list (string * pyval)) (k1 k2 : string) :
  k1 ≠ k2 → field_errors fs data k1 ≠ [] → field_errors fs data k2 ≠ [] →
  ∃ e m1 m2,
    make_config fs (Some data) = Raise (EComplyScribeConfigError e)
    ∧ (∀ file_path, mapping_at fs file_path data →
         load_from_file fs file_path = Raise (EComplyScribeConfigError e))
    ∧ errors e = map _format (flat_map (field_errors fs data) field_names)
    ∧ violation_clause k1 m1 ∈ errors e
    ∧ violation_clause k2 m2 ∈ errors e
    ∧ violation_clause k1 m1 ≠ violation_clause k2 m2
    ∧ occurs_in (violation_clause k1 m1) (ComplyScribeConfigError_str e)
    ∧ occurs_in (violation_clause k2 m2) (ComplyScribeConfigError_str e).
Proof.
  intros Hne H1 H2.
  destruct (invalid_field_reported fs data k1 H1) as (e & Hmake & Hload & Herrs & m1 & Hm1).
  destruct (invalid_field_reported fs data k2 H2) as (e' & Hmake' & _ & _ & m2 & Hm2).
  assert (e' = e) as -> by congruence.
  exists e, m1, m2. repeat split; try assumption.
  - intros Heq. apply Hne.
    eapply violation_clause_field_inj; eauto using field_errors_names.
  - now apply occurs_in_concat.
  - now apply occurs_in_concat.
Qed.

(** C9: when the mapping sets [repo_path] to a path that is no directory
    on disk, [make_config], and [load_from_file] on a file that holds the
    mapping, raise the configuration error, and its combined message
    mentions [repo_path]. *)
Theorem missing_repo_path_is_reported (fs : gmap string node)
    (data : list (string * pyval)) (v : pyval) :
  dict_get data "repo_path" = Some v → not_a_directory fs v = true →
  ∃ e,
    make_config fs (Some data) = Raise (EComplyScribeConfigError e)
    ∧ (∀ file_path, mapping_at fs file_path data →
         load_from_file fs file_path = Raise (EComplyScribeConfigError e))
    ∧ occurs_in "repo_path" (ComplyScribeConfigError_str e).
Proof.
  intros Hget Hnot.
  assert (field_errors fs data "repo_path" ≠ []) as Hne.
  { unfold field_errors. cbn. rewrite Hget.
    destruct v; try discriminate Hnot; cbn in Hnot |- *;
      apply negb_true_iff in Hnot; rewrite Hnot; discriminate. }
  destruct (invalid_field_reported fs data _ Hne) as (e & Hmake & Hload & _ & m & Hm).
  exists e. repeat split; try assumption.
  eapply occurs_in_trans; [apply violation_clause_names_field|].
  apply occurs_in_concat, Hm.
Qed.
End Reporting.

Lemma every_invalid_field_is_reported_witness :
  ∃ e m1 m2,
    @make_config Demo.platform Demo.fs (Some two_invalid_fields)
    = Raise (EComplyScribeConfigError e)
    ∧ (∀ file_path, @mapping_at Demo.platform Demo.fs file_path two_invalid_fields →
         @load_from_file Demo.platform Demo.fs file_path
         = Raise (EComplyScribeConfigError e))
    ∧ errors e
      = map _format
          (flat_map (@field_errors Demo.platform Demo.fs two_invalid_fields) field_names)
    ∧ violation_clause "committer_name" m1 ∈ errors e
    ∧ violation_clause "repo_path" m2 ∈ errors e
    ∧ violation_clause "committer_name" m1 ≠ violation_clause "repo_path" m2
    ∧ occurs_in (violation_clause "committer_name" m1) (ComplyScribeConfigError_str e)
    ∧ occurs_in (violation_clause "repo_path" m2) (ComplyScribeConfigError_str e).
Proof.
  apply (@every_invalid_field_is_reported Demo.platform Demo.fs two_invalid_fields).
  - discriminate.
  - vm_compute. discriminate.
  - vm_compute. discriminate.
Defined.

Lemma missing_repo_path_is_reported_witness :
  ∃ e,
    @make_config Demo.platform Demo.fs (Some two_invalid_fields)
    = Raise (EComplyScribeConfigError e)
    ∧ (∀ file_path, @mapping_at Demo.platform Demo.fs file_path two_invalid_fields →
         @load_from_file Demo.platform Demo.fs file_path
         = Raise (EComplyScribeConfigError e))
    ∧ occurs_in "repo_path" (ComplyScribeConfigError_str e).
Proof.
  apply (@missing_repo_path_is_reported Demo.platform Demo.fs two_invalid_fields
           (VStr "/srv/nowhere")).
  - reflexivity.
  - vm_compute. reflexivity.
Defined.

(** The combined message of the two violations, as the code computes it. *)
Example two_invalid_fields_message :
  @make_config Demo.platform Demo.fs (Some two_invalid_fields)
  = Raise (EComplyScribeConfigError
      {| errors :=
           ["Invalid config value for repo_path. Path does not point to a directory.";
            "Invalid config value for committer_name. Input should be a valid string."];
         args := "complyscribe config file contains 2 error(s)." |}).
Proof. vm_compute. reflexivity. Qed.

(** ** Construction from a conforming mapping *)

Lemma list_items_strs (l : list locseg) (i : nat) (xs : list pyval) :
  forallb is_str xs = true →
  list_items str_validator l i xs = Valid (omap (fun x => str_value (Some x)) xs).
Proof.
  revert i. induction xs as [|x xs IH]; intros i Hall; [reflexivity|].
  apply andb_true_iff in Hall as [Hx Hxs].
  cbn [list_items]. rewrite (IH _ Hxs).
  destruct x; try discriminate Hx. reflexivity.
Qed.

Lemma field_strs (l : list locseg) (default : list string) (o : option pyval) :
  from_option is_strs true o = true →
  field (list_validator str_validator) l default o = Valid (strs_value default o).
Proof.
  destruct o as [v|]; [|reflexivity]. simpl. intros Hv.
  destruct v; try discriminate Hv. now apply list_items_strs.
Qed.

Lemma field_bool (l : list locseg) (default : bool) (o : option pyval) :
  from_option is_bool true o = true →
  field bool_validator l default o = Valid (bool_value default o).
Proof.
  destruct o as [v|]; [|reflexivity]. simpl. intros Hv.
  destruct v; try discriminate Hv. reflexivity.
Qed.

Lemma field_opt_str (l : list locseg) (o : option pyval) :
  conforms_opt is_str o = true →
  field (nullable str_validator) l None o = Valid (str_value o).
Proof.
  destruct o as [v|]; [|reflexivity]. simpl. intros Hv.
  destruct v; try discriminate Hv; reflexivity.
Qed.

Lemma field_opt_upstreams (l : list locseg) (o : option pyval) :
  conforms_opt conforms_upstreams o = true →
  field (nullable upstreams_validator) l None o = Valid (upstreams_value o).
Proof.
  destruct o as [v|]; [|reflexivity]. simpl. intros Hv.
  destruct v as [| | | | | |d|u]; try discriminate Hv; try reflexivity.
  cbn [conforms_upstreams] in Hv.
  apply andb_true_iff in Hv as [Hv Hskip].
  apply andb_true_iff in Hv as [Hv Hexcl].
  apply andb_true_iff in Hv as [Hsrc Hincl].
  unfold nullable, v_map, upstreams_validator, upstreams_value.
  rewrite (field_strs _ _ _ Hincl), (field_strs _ _ _ Hexcl), (field_bool _ _ _ Hskip).
  destruct (dict_get d "sources") as [v|]; [|discriminate Hsrc].
  pose proof (field_strs (l ++ [LKey "sources"]) [] (Some v) Hsrc) as Hs.
  cbn [field required_field] in Hs |- *. rewrite Hs. reflexivity.
Qed.

Section Construction.
Context `{Platform}.

Lemma field_opt_path (fs : gmap string node) (l : list locseg) (o : option pyval) :
  conforms_opt (is_existing_dir fs) o = true →
  field (nullable (directory_path_validator fs)) l None o = Valid (path_value o).
Proof.
  destruct o as [v|]; [|reflexivity]. simpl. intros Hv.
  destruct v; try discriminate Hv; try reflexivity;
    cbn in Hv |- *; now rewrite Hv.
Qed.

Lemma validate_conforming (fs : gmap string node) (m : list (string * pyval)) :
  conforms fs m = true → validate_ComplyScribeConfig fs m = Valid (config_of_mapping m).
Proof.
  unfold conforms. cbn [forallb].
  rewrite !andb_true_iff.
  intros [[Hpath (Hmd & Hname & Hemail & Hmsg & Hbranch & Hssp & _)] Hup].
  unfold validate_ComplyScribeConfig.
  rewrite (field_opt_path _ _ _ Hpath), (field_opt_upstreams _ _ Hup),
    (field_opt_str _ _ Hmd), (field_opt_str _ _ Hname), (field_opt_str _ _ Hemail),
    (field_opt_str _ _ Hmsg), (field_opt_str _ _ Hbranch), (field_opt_str _ _ Hssp).
  reflexivity.
Qed.

(** C7: for a mapping that conforms to the schema, [make_config] returns
    the configuration whose every field is the value of the mapping, or
    the default when the mapping does not name it: [None] at the top
    level and, in the upstreams, the list of the one pattern [*] for
    [include_models], the empty list for [exclude_models] and false for
    [skip_validation].  Without a mapping it returns the all-default
    configuration. *)
Theorem make_config_conforming (fs : gmap string node) (m : list (string * pyval)) :
  conforms fs m = true →
  make_config fs (Some m) = Ret (config_of_mapping m)
  ∧ make_config fs None = Ret default_config
  ∧ config_of_mapping [] = default_config.
Proof.
  intros Hm. split; [|split; reflexivity].
  rewrite make_config_Some. unfold ComplyScribeConfig_new.
  now rewrite (validate_conforming _ _ Hm).
Qed.
End Construction.

Lemma make_config_conforming_witness :
  @make_config Demo.platform Demo.fs (Some conforming_mapping)
  = Ret {| repo_path := Some "/srv/repo"; markdown_dir := None;
           committer_name := None; committer_email := None;
           commit_message := None; branch := Some "main"; ssp_index_file := None;
           upstreams := Some {| sources := ["https://example.org/repo@main"];
                                include_models := ["*"];
                                exclude_models := [];
                                skip_validation := false |} |}
  ∧ @make_config Demo.platform Demo.fs None = Ret default_config
  ∧ @config_of_mapping Demo.platform [] = default_config.
Proof.
  apply (@make_config_conforming Demo.platform Demo.fs conforming_mapping).
  vm_compute. reflexivity.
Defined.

(** ** Python equality *)

Lemma py_eq_VStr (s : string) (v : pyval) : py_eq (VStr s) v = true → v = VStr s.
Proof. destruct v; simpl; try discriminate. now intros ->%String.eqb_eq. Qed.

Lemma py_eq_strs (xs : list string) (v : pyval) :
  py_eq (py_of_strs xs) v = true → v = py_of_strs xs.
Proof.
  unfold py_of_strs. destruct v as [| | | | |ys| |]; try discriminate.
  intros Heq. f_equal. simpl in Heq. revert ys Heq.
  induction xs as [|x xs IH]; intros [|y ys] Heq; simpl in Heq; try discriminate.
  - reflexivity.
  - apply andb_true_iff in Heq as [Hx Hr].
    destruct y; try discriminate Hx. apply String.eqb_eq in Hx as ->.
    cbn [map]. f_equal. now apply IH.
Qed.

Lemma py_eq_VBool (b : bool) (v : pyval) (l : list locseg) :
  py_eq (VBool b) v = true → bool_validator l v = Valid b.
Proof.
  destruct v as [|b'|n| | | | |]; simpl; try discriminate.
  - destruct b, b'; simpl; congruence.
  - intros <-%Z.eqb_eq. now destruct b.
Qed.

Lemma dict_get_Some_key {A} (d : list (string * A)) (k : string) (v : A) :
  dict_get d k = Some v → In k (map fst d).
Proof.
  induction d as [|[k' v'] d IH]; simpl; [discriminate|].
  destruct (String.eqb_spec k' k) as [->|_]; [now left | right; now apply IH].
Qed.

Lemma dict_get_None_key {A} (d : list (string * A)) (k : string) :
  ¬ In k (map fst d) → dict_get d k = None.
Proof.
  intros Hk. destruct (dict_get d k) eqn:E; [|reflexivity].
  now apply dict_get_Some_key in E.
Qed.

Lemma py_eq_VDict (d : list (string * pyval)) (v : pyval) :
  py_eq (VDict d) v = true → ∃ d', v = VDict d' ∧ ∀ k, same_entry d d' k.
Proof.
  destruct v as [| | | | | |d'|]; try discriminate.
  intros Heq. exists d'. split; [reflexivity|].
  simpl in Heq. apply andb_true_iff in Heq as [Hgo Hkeys].
  intros k. unfold same_entry. destruct (dict_get d k) as [x|] eqn:Hk.
  - clear Hkeys. induction d as [|[k' v'] d IH]; simpl in Hk; [discriminate|].
    apply andb_true_iff in Hgo as [Hhere Hgo].
    destruct (String.eqb_spec k' k) as [->|_].
    + injection Hk as ->. destruct (dict_get d' k) as [y|]; [|discriminate].
      now exists y.
    + now apply IH.
  - destruct (dict_get d' k) as [y|] eqn:Hk'; [|reflexivity].
    apply dict_get_Some_key in Hk'.
    rewrite forallb_forall in Hkeys. apply Hkeys in Hk'.
    apply bool_decide_eq_true in Hk' as [z Hz]. congruence.
Qed.

(** ** Reading a filtered dictionary *)

Lemma dict_get_filter {A} (f : string * A → bool) (d : list (string * A)) (k : string) :
  List.NoDup (map fst d) →
  dict_get (List.filter f d) k
  = match dict_get d k with
    | Some v => if f (k, v) then Some v else None
    | None => None
    end.
Proof.
  induction d as [|[k' v'] d IH]; intros Hnd; [reflexivity|].
  simpl in Hnd. apply List.NoDup_cons_iff in Hnd as [Hk' Hnd].
  cbn [List.filter dict_get].
  destruct (String.eqb_spec k' k) as [->|Hne].
  - destruct (f (k, v')) eqn:Hf; cbn [dict_get].
    + now rewrite String.eqb_refl.
    + apply dict_get_None_key. intros Hin. apply Hk'.
      apply in_map_iff in Hin as (item & Hfst & Hin).
      apply in_map_iff. exists item. split; [assumption|].
      now apply List.filter_In in Hin.
  - destruct (f (k', v')); cbn [dict_get].
    + apply String.eqb_neq in Hne. rewrite Hne. now apply IH.
    + now apply IH.
Qed.

(** ** Round trip *)

Lemma kept_opt_str (o : option string) :
  is_None_text o = false →
  (if negb (dropped (py_of_opt_str o)) then Some (py_of_opt_str o) else None)
  = VStr <$> o.
Proof. destruct o as [s|]; simpl; [now intros -> | reflexivity]. Qed.

Lemma kept_opt_path (o : option string) :
  is_None_text o = false →
  (if negb (dropped (VStr (str_of_opt_path o))) then Some (VStr (str_of_opt_path o))
   else None)
  = VStr <$> o.
Proof. destruct o as [s|]; simpl; [now intros -> | reflexivity]. Qed.

Lemma to_yaml_dict_entries (c : ComplyScribeConfig) :
  has_None_text c = false →
  Forall (fun entry => dict_get (to_yaml_dict c) (fst entry) = snd entry)
    (written_entries c).
Proof.
  unfold has_None_text. cbn [existsb]. rewrite !orb_false_iff.
  intros (Hpath & Hmd & Hname & Hemail & Hmsg & Hbranch & Hssp & _).
  rewrite to_yaml_dict_eq_spec. unfold to_yaml_dict_spec, written_entries.
  assert (List.NoDup (map fst
    ([("repo_path", VStr (str_of_opt_path (repo_path c)));
      ("markdown_dir", py_of_opt_str (markdown_dir c));
      ("ssp_index_file", py_of_opt_str (ssp_index_file c));
      ("committer_name", py_of_opt_str (committer_name c));
      ("committer_email", py_of_opt_str (committer_email c));
      ("commit_message", py_of_opt_str (commit_message c));
      ("branch", py_of_opt_str (branch c))]
     ++ match upstreams c with
        | Some u => [("upstreams", VDict (upstreams_dict_spec u))]
        | None => []
        end))) as Hnd.
  { apply NoDup_ListNoDup.
    destruct (upstreams c); simpl; apply (bool_decide_unpack _); vm_compute; exact I. }
  repeat (apply List.Forall_cons; [cbn [fst snd]; rewrite (dict_get_filter _ _ _ Hnd)|]);
    [..|apply List.Forall_nil]; cbn [dict_get app String.eqb Ascii.eqb Bool.eqb snd].
  - now apply kept_opt_path.
  - now apply kept_opt_str.
  - now apply kept_opt_str.
  - now apply kept_opt_str.
  - now apply kept_opt_str.
  - now apply kept_opt_str.
  - now apply kept_opt_str.
  - destruct (upstreams c); reflexivity.
Qed.

(** Validation of an entry that was read back. *)
Lemma read_back_opt_str (d d' : list (string * pyval)) (k : string)
    (o : option string) (l : list locseg) :
  dict_get d k = VStr <$> o → same_entry d d' k →
  field (nullable str_validator) l None (dict_get d' k) = Valid o.
Proof.
  unfold same_entry. intros ->. destruct o as [s|]; simpl.
  - intros (y & -> & ->%py_eq_VStr). reflexivity.
  - now intros ->.
Qed.

Lemma list_items_py_of_strs (l : list locseg) (i : nat) (xs : list string) :
  list_items str_validator l i (map VStr xs) = Valid xs.
Proof.
  revert i. induction xs as [|x xs IH]; intros i; [reflexivity|].
  cbn [map list_items]. now rewrite IH.
Qed.

Lemma read_back_strs (d d' : list (string * pyval)) (k : string)
    (xs : list string) (l : list locseg) :
  dict_get d k = Some (py_of_strs xs) → same_entry d d' k →
  dict_get d' k = Some (py_of_strs xs)
  ∧ list_validator str_validator l (py_of_strs xs) = Valid xs.
Proof.
  unfold same_entry. intros ->. intros (y & -> & ->%py_eq_strs).
  split; [reflexivity | apply list_items_py_of_strs].
Qed.

Lemma read_back_upstreams (d d' : list (string * pyval)) (k : string)
    (o : option UpstreamsConfig) (l : list locseg) :
  dict_get d k = (fun u => VDict (upstreams_dict_spec u)) <$> o → same_entry d d' k →
  field (nullable upstreams_validator) l None (dict_get d' k) = Valid o.
Proof.
  unfold same_entry. intros ->.
  destruct o as [u|]; cbn [fmap option_fmap option_map]; [|now intros ->].
  intros (y & -> & (e & -> & Hsame)%py_eq_VDict).
  cbn [field nullable]. unfold v_map, upstreams_validator.
  destruct u as [src incl excl skip].
  pose (u := {| sources := src; include_models := incl; exclude_models := excl;
                skip_validation := skip |}).
  destruct (read_back_strs (upstreams_dict_spec u) e "sources" src
              (l ++ [LKey "sources"]) eq_refl (Hsame _)) as [-> Hsrc].
  destruct (read_back_strs (upstreams_dict_spec u) e "include_models" incl
              (l ++ [LKey "include_models"]) eq_refl (Hsame _)) as [-> Hincl].
  cbn [required_field field]. rewrite Hsrc, Hincl.
  pose proof (Hsame "skip_validation") as Hskip. unfold same_entry in Hskip.
  cbn in Hskip. destruct Hskip as (b & -> & Hb).
  cbn [field]. rewrite (py_eq_VBool _ _ _ Hb).
  pose proof (Hsame "exclude_models") as Hexcl. subst u.
  destruct excl as [|x excl].
  - unfold same_entry in Hexcl. cbn in Hexcl. rewrite Hexcl. reflexivity.
  - destruct (read_back_strs
                (upstreams_dict_spec
                   {| sources := src; include_models := incl;
                      exclude_models := x :: excl; skip_validation := skip |})
                e "exclude_models" (x :: excl)
                (l ++ [LKey "exclude_models"]) eq_refl Hexcl) as [-> Hex].
    cbn [field]. rewrite Hex. reflexivity.
Qed.

Section RoundTrip.
Context `{Platform}.

Lemma read_back_opt_path (fs : gmap string node) (d d' : list (string * pyval))
    (k : string) (o : option string) (l : list locseg) :
  match o with
  | Some p => Path p = p ∧ is_dir fs p = true
  | None => True
  end →
  dict_get d k = VStr <$> o → same_entry d d' k →
  field (nullable (directory_path_validator fs)) l None (dict_get d' k) = Valid o.
Proof.
  unfold same_entry. intros Hvalid ->. destruct o as [p|]; simpl.
  - intros (y & -> & ->%py_eq_VStr). destruct Hvalid as [Hnorm Hdir].
    cbn. rewrite Hnorm, Hdir. reflexivity.
  - now intros ->.
Qed.

(** A document equal to the written mapping validates to the
    configuration that was written. *)
Lemma validate_read_back (fs : gmap string node) (c : ComplyScribeConfig) (v : pyval) :
  valid_config fs c → has_None_text c = false →
  py_eq (VDict (to_yaml_dict c)) v = true →
  ∃ d', v = VDict d' ∧ validate_ComplyScribeConfig fs d' = Valid c.
Proof.
  intros Hvalid Htext (d' & -> & Hsame)%py_eq_VDict.
  exists d'. split; [reflexivity|].
  pose proof (to_yaml_dict_entries c Htext) as Hentries.
  unfold written_entries in Hentries.
  repeat (apply List.Forall_cons_iff in Hentries as [?He Hentries]).
  cbn [fst snd] in *.
  unfold validate_ComplyScribeConfig.
  rewrite (read_back_opt_path fs _ d' "repo_path" (repo_path c) _ Hvalid He (Hsame _)).
  rewrite (read_back_opt_str _ d' "markdown_dir" _ _ He0 (Hsame _)).
  rewrite (read_back_opt_str _ d' "ssp_index_file" _ _ He1 (Hsame _)).
  rewrite (read_back_opt_str _ d' "committer_name" _ _ He2 (Hsame _)).
  rewrite (read_back_opt_str _ d' "committer_email" _ _ He3 (Hsame _)).
  rewrite (read_back_opt_str _ d' "commit_message" _ _ He4 (Hsame _)).
  rewrite (read_back_opt_str _ d' "branch" _ _ He5 (Hsame _)).
  rewrite (read_back_upstreams _ d' "upstreams" _ _ He6 (Hsame _)).
  now destruct c.
Qed.

Lemma mkdir_keeps_dirs (dirs : list string) (fs fs1 : gmap string node)
    (r : result unit) (q : string) :
  mkdir dirs fs = (fs1, r) → fs !! q = Some Dir → fs1 !! q = Some Dir.
Proof.
  revert fs. induction dirs as [|d dirs IH]; intros fs; simpl.
  - now intros [= <- _].
  - destruct (fs !! d) as [[|t]|] eqn:Hd.
    + apply IH.
    + now intros [= <- _].
    + intros Hm Hq. apply (IH _ Hm).
      destruct (decide (d = q)) as [->|Hne];
        [apply lookup_insert_eq | now rewrite lookup_insert_ne].
Qed.

(** What a successful [write_to_file] leaves on disk: the file, and every
    directory that was there. *)
Lemma write_to_file_disk (c : ComplyScribeConfig) (p : string)
    (fs fs' : gmap string node) :
  write_to_file c p fs = (fs', Ret tt) →
  fs' !! p = Some (File (yaml_dump (VDict (to_yaml_dict c))))
  ∧ ∀ q, is_dir fs q = true → is_dir fs' q = true.
Proof.
  unfold write_to_file, write_to_file_body.
  destruct (mkdir (parents_of p) fs) as [fs1 [[]|e]] eqn:Hm;
    [|cbn; destruct e; discriminate].
  unfold open_w_write.
  destruct (fs1 !! p) as [n|] eqn:Hp; [destruct n as [|t]; [discriminate|]|];
    cbn; intros [= <-]; (split; [apply lookup_insert_eq|]);
    intros q Hq; unfold is_dir in *;
    (destruct (fs !! q) as [[|t']|] eqn:Hfq; try discriminate Hq);
    pose proof (mkdir_keeps_dirs _ _ _ _ _ Hm Hfq) as Hq1;
    (rewrite lookup_insert_ne by congruence); now rewrite Hq1.
Qed.

(** C8, as the code has it: a valid configuration in which no string
    field, and not the string form of [repo_path], is the text [None] is
    read back by [load_from_file] as it was written by [write_to_file],
    equal in every field, provided the write succeeds and PyYAML reads
    back the document it wrote. *)
Theorem write_then_load (fs fs' : gmap string node) (c : ComplyScribeConfig)
    (file_path : string) :
  valid_config fs c → has_None_text c = false →
  yaml_reads_back (VDict (to_yaml_dict c)) →
  write_to_file c file_path fs = (fs', Ret tt) →
  load_from_file fs' file_path = Ret (Some c).
Proof.
  intros Hvalid Htext (v & Hload & Heq) Hwrite.
  apply write_to_file_disk in Hwrite as [Hfile Hdirs].
  assert (valid_config fs' c) as Hvalid'.
  { unfold valid_config in *. destruct (repo_path c); [|exact I].
    destruct Hvalid as [Hnorm Hdir]. split; [assumption | now apply Hdirs]. }
  destruct (validate_read_back fs' c v Hvalid' Htext Heq) as (d' & -> & Hv).
  rewrite (load_from_file_mapping fs' file_path d').
  - now rewrite Hv.
  - now exists (yaml_dump (VDict (to_yaml_dict c))).
Qed.
End RoundTrip.

Lemma write_then_load_witness :
  @load_from_file Demo.platform
    (@write_to_file Demo.platform Demo.all_set Demo.config_path Demo.fs).1
    Demo.config_path
  = Ret (Some Demo.all_set).
Proof.
  apply (@write_then_load Demo.platform Demo.fs).
  - split; [reflexivity | vm_compute; reflexivity].
  - vm_compute. reflexivity.
  - exists (VDict (to_yaml_dict Demo.all_set)).
    split; [reflexivity | vm_compute; reflexivity].
  - vm_compute. reflexivity.
Defined.

(** C8, as the specification words it, fails for a configuration whose
    every field is set and whose branch is called [None]: the write drops
    the branch with the unset values, and the configuration read back has
    no branch. *)
Lemma branch_None_is_not_read_back :
  no_field_left_empty Demo.branch_None = true
  ∧ @valid_config Demo.platform Demo.fs Demo.branch_None
  ∧ @yaml_reads_back Demo.platform (VDict (to_yaml_dict Demo.branch_None))
  ∧ @write_to_file Demo.platform Demo.branch_None Demo.config_path Demo.fs
    = ((@write_to_file Demo.platform Demo.branch_None Demo.config_path Demo.fs).1, Ret tt)
  ∧ ∃ c',
      @load_from_file Demo.platform
        (@write_to_file Demo.platform Demo.branch_None Demo.config_path Demo.fs).1
        Demo.config_path
      = Ret (Some c')
      ∧ branch Demo.branch_None = Some "None"
      ∧ branch c' = None.
Proof.
  split; [vm_compute; reflexivity|].
  split; [split; [reflexivity | vm_compute; reflexivity]|].
  split; [exists (VDict (to_yaml_dict Demo.branch_None));
          split; [reflexivity | vm_compute; reflexivity]|].
  split; [vm_compute; reflexivity|].
  exists {| repo_path := repo_path Demo.all_set;
            markdown_dir := markdown_dir Demo.all_set;
            committer_name := committer_name Demo.all_set;
            committer_email := committer_email Demo.all_set;
            commit_message := commit_message Demo.all_set;
            branch := None;
            ssp_index_file := ssp_index_file Demo.all_set;
            upstreams := upstreams Demo.all_set |}.
  split; [vm_compute; reflexivity | split; reflexivity].
Qed.

(** * Further properties *)

(** ** Failures always have an error to show *)

Lemma reports_ap {A B} (f : validated (A → B)) (x : validated A) :
  reports f → reports x → reports (f <*> x).
Proof.
  destruct f as [g|[|e1 r1]], x as [a|[|e2 r2]]; simpl; tauto.
Qed.

Lemma reports_Valid_of_no_errors {A} (v : validated A) :
  reports v → line_errors v = [] → ∃ a, v = Valid a.
Proof.
  destruct v as [a|[|e r]]; simpl; [eauto | tauto | discriminate].
Qed.

Lemma str_validator_reporting : reporting str_validator.
Proof. intros l v. now destruct v. Qed.

Lemma bool_validator_reporting : reporting bool_validator.
Proof.
  intros l v. unfold bool_validator.
  destruct v as [|b|n|s| | | |]; simpl; try exact I.
  - now destruct n as [|[]|].
  - repeat match goal with |- context [if ?b then _ else _] => destruct b end; exact I.
Qed.

Lemma list_validator_reporting {A} (f : list locseg → pyval → validated A) :
  reporting f → reporting (list_validator f).
Proof.
  intros Hf l v. destruct v as [| | | | |xs| |]; try exact I.
  unfold list_validator. generalize 0. induction xs as [|x xs IH]; intros i.
  - exact I.
  - cbn [list_items]. repeat apply reports_ap; [exact I | apply Hf | apply IH].
Qed.

Lemma nullable_reporting {A} (f : list locseg → pyval → validated A) :
  reporting f → reporting (nullable f).
Proof.
  intros Hf l v. unfold nullable, v_map.
  destruct v; try exact I; (apply reports_ap; [exact I | apply Hf]).
Qed.

Lemma field_reporting {A} (f : list locseg → pyval → validated A) l d o :
  reporting f → reports (field f l d o).
Proof. intros Hf. destruct o; [apply Hf | exact I]. Qed.

Lemma upstreams_validator_reporting : reporting upstreams_validator.
Proof.
  intros l v. destruct v as [| | | | | |d|u]; try exact I.
  unfold upstreams_validator. repeat apply reports_ap; try exact I.
  - unfold required_field. destruct (dict_get d "sources"); [|exact I].
    apply list_validator_reporting, str_validator_reporting.
  - apply field_reporting, list_validator_reporting, str_validator_reporting.
  - apply field_reporting, list_validator_reporting, str_validator_reporting.
  - apply field_reporting, bool_validator_reporting.
Qed.

Section Outcomes.
Context `{Platform}.

Lemma directory_path_validator_reporting (fs : gmap string node) :
  reporting (directory_path_validator fs).
Proof.
  intros l v. unfold directory_path_validator.
  destruct v; try exact I.
  - now destruct (is_dir fs (Path s)).
  - now destruct (is_dir fs s).
Qed.

Lemma validate_reports (fs : gmap string node) data :
  reports (validate_ComplyScribeConfig fs data).
Proof.
  unfold validate_ComplyScribeConfig.
  repeat apply reports_ap; try exact I;
    apply field_reporting, nullable_reporting;
    first [apply directory_path_validator_reporting
          | apply str_validator_reporting
          | apply upstreams_validator_reporting].
Qed.

(** Every formatted line error of the model names one of its fields. *)
Lemma validate_errors_name_fields (fs : gmap string node) data :
  Forall names_a_field
    (map _format (line_errors (validate_ComplyScribeConfig fs data))).
Proof.
  rewrite validate_line_errors. apply Forall_forall. intros s Hs.
  apply list_elem_of_fmap in Hs as (e & -> & He).
  apply list_elem_of_In, in_flat_map in He as (k & Hk & He).
  pose proof (field_errors_located fs data k) as Hloc.
  rewrite Forall_forall in Hloc. apply list_elem_of_In in He.
  destruct (_format_under _ _ (Hloc _ He)) as [m Hm].
  exists k, m. split; [now apply list_elem_of_In | exact Hm].
Qed.

(** X1: a file that holds a conforming mapping is loaded as the
    configuration whose fields are the values of the mapping, or the
    defaults. *)
Theorem load_from_file_conforming (fs : gmap string node) (file_path : string)
    (data : list (string * pyval)) :
  mapping_at fs file_path data → conforms fs data = true →
  load_from_file fs file_path = Ret (Some (config_of_mapping data)).
Proof.
  intros Hat Hdata. rewrite (load_from_file_mapping _ _ _ Hat).
  now rewrite (validate_conforming _ _ Hdata).
Qed.



(** X4: whatever [load_from_file] raises is the configuration error, the
    error of a directory in place of the file, or the error of the YAML
    parser; pydantic's [ValidationError], [FileNotFoundError] and
    [TypeError] never leave it. *)
Theorem load_from_file_failures (fs : gmap string node) (file_path : string) (ex : exn) :
  load_from_file fs file_path = Raise ex → load_failure ex.
Proof.
  unfold load_from_file, load_from_file_body, open_r, safe_load, load_failure.
  destruct (fs !! file_path) as [[|t]|]; cbn; try discriminate.
  - intros [= <-]. right. now left.
  - destruct (yaml_safe_load t) as [v|]; cbn.
    + destruct v; cbn; try discriminate.
      unfold ComplyScribeConfig_new.
      destruct (validate_ComplyScribeConfig fs d); cbn; [discriminate|].
      intros [= <-]. left. eauto.
    + intros [= <-]. right. now right.
Qed.

(** X5: the only exception of [make_config] is the configuration error; it
    then has at least one message, and every message is the clause of a
    field of the model, ["Invalid config value for <field>. <message>."]. *)
Theorem make_config_failures (fs : gmap string node)
    (values : option (list (string * pyval))) (ex : exn) :
  make_config fs values = Raise ex →
  ∃ e, ex = EComplyScribeConfigError e
       ∧ errors e ≠ []
       ∧ Forall names_a_field (errors e).
Proof.
  assert (∀ data, try_except (ComplyScribeConfig_new fs data) except_ValidationError
                  = Raise ex →
          ∃ e, ex = EComplyScribeConfigError e ∧ errors e ≠ []
               ∧ Forall names_a_field (errors e)) as Hnew.
  { intros data. unfold ComplyScribeConfig_new.
    pose proof (validate_reports fs data) as Hrep.
    pose proof (validate_errors_name_fields fs data) as Hnames.
    destruct (validate_ComplyScribeConfig fs data) as [c|errs]; cbn; [discriminate|].
    intros [= <-]. eexists. split; [reflexivity|]. split; [|exact Hnames].
    cbn. destruct errs; [destruct Hrep | discriminate]. }
  destruct values as [data|].
  - rewrite make_config_Some. apply Hnew.
  - apply (Hnew []).
Qed.

(** X6: [make_config] returns a configuration exactly when no field of the
    mapping has a line error. *)
Theorem make_config_succeeds_iff (fs : gmap string node) (data : list (string * pyval)) :
  (∃ c, make_config fs (Some data) = Ret c)
  ↔ Forall (fun k => field_errors fs data k = []) field_names.
Proof.
  rewrite make_config_Some. unfold ComplyScribeConfig_new.
  pose proof (validate_line_errors fs data) as Herrs.
  pose proof (validate_reports fs data) as Hrep.
  split.
  - intros [c Hc]. apply Forall_forall. intros k Hk.
    destruct (validate_ComplyScribeConfig fs data) as [c'|errs]; [|discriminate Hc].
    cbn [line_errors] in Herrs.
    destruct (field_errors fs data k) as [|e r] eqn:He; [reflexivity|].
    assert (e ∈ flat_map (field_errors fs data) field_names) as Hin.
    { apply list_elem_of_In, in_flat_map. exists k.
      split; [now apply list_elem_of_In | rewrite He; now left]. }
    rewrite <- Herrs in Hin. now apply not_elem_of_nil in Hin.
  - intros Hall.
    assert (flat_map (field_errors fs data) field_names = []) as Hnil.
    { revert Hall. generalize field_names.
      induction 1 as [|k ks Hk _ IH]; [reflexivity|].
      cbn [flat_map]. now rewrite Hk, IH. }
    rewrite Hnil in Herrs.
    destruct (reports_Valid_of_no_errors _ Hrep Herrs) as [c ->]. now exists c.
Qed.

(** X7: a key that names no field of the model is ignored: with it the
    mapping gives what it gives without it. *)
Theorem make_config_ignores_unknown_key (fs : gmap string node)
    (data : list (string * pyval)) (k : string) (v : pyval) :
  k ∉ field_names →
  make_config fs (Some ((k, v) :: data)) = make_config fs (Some data).
Proof.
  intros Hk. rewrite !make_config_Some. unfold ComplyScribeConfig_new.
  assert (∀ f, f ∈ field_names → dict_get ((k, v) :: data) f = dict_get data f) as Hget.
  { intros f Hf. cbn [dict_get].
    destruct (String.eqb_spec k f) as [Heq|_]; [|reflexivity].
    destruct Hk. now rewrite Heq. }
  unfold validate_ComplyScribeConfig.
  rewrite !Hget by (apply list_elem_of_In; simpl; tauto). reflexivity.
Qed.

(** X8: the sources are required: a mapping whose upstreams name none is
    refused, and the message names the upstreams. *)
Theorem upstreams_need_sources (fs : gmap string node)
    (data d : list (string * pyval)) :
  dict_get data "upstreams" = Some (VDict d) → dict_get d "sources" = None →
  ∃ e, make_config fs (Some data) = Raise (EComplyScribeConfigError e)
       ∧ "Invalid config value for upstreams. Field required." ∈ errors e.
Proof.
  intros Hup Hsrc. rewrite make_config_Some. unfold ComplyScribeConfig_new.
  pose proof (validate_line_errors fs data) as Herrs.
  assert (line_error "missing" [LKey "upstreams"; LKey "sources"] "Field required"
            (VDict d)
          ∈ line_errors (validate_ComplyScribeConfig fs data)) as Hin.
  { rewrite Herrs. apply list_elem_of_In, in_flat_map. exists "upstreams".
    split; [simpl; tauto|].
    unfold field_errors. cbn [String.eqb Ascii.eqb Bool.eqb]. rewrite Hup.
    cbn [field nullable]. unfold v_map, upstreams_validator.
    rewrite !line_errors_ap, Hsrc. cbn. now left. }
  destruct (validate_ComplyScribeConfig fs data) as [c|errs];
    [now apply not_elem_of_nil in Hin|].
  eexists. split; [reflexivity|].
  cbn. apply list_elem_of_fmap. eexists. split; [|exact Hin]. reflexivity.
Qed.
End Outcomes.

Lemma load_from_file_conforming_witness :
  @load_from_file Demo.platform disk_with_config Demo.config_path
  = Ret (Some (@config_of_mapping Demo.platform conforming_mapping)).
Proof.
  apply (@load_from_file_conforming Demo.platform).
  - exists (VDict conforming_mapping). split; [vm_compute; reflexivity | reflexivity].
  - vm_compute. reflexivity.
Defined.



Lemma load_from_file_failures_witness : load_failure EIsADirectoryError.
Proof.
  apply (@load_from_file_failures Demo.platform Demo.fs "/srv/repo").
  vm_compute. reflexivity.
Defined.

Lemma make_config_failures_witness :
  ∃ e,
    EComplyScribeConfigError
      {| errors :=
           ["Invalid config value for repo_path. Path does not point to a directory.";
            "Invalid config value for committer_name. Input should be a valid string."];
         args := "complyscribe config file contains 2 error(s)." |}
    = EComplyScribeConfigError e
    ∧ errors e ≠ []
    ∧ Forall names_a_field (errors e).
Proof.
  apply (@make_config_failures Demo.platform Demo.fs (Some two_invalid_fields)).
  vm_compute. reflexivity.
Defined.

Lemma make_config_ignores_unknown_key_witness :
  @make_config Demo.platform Demo.fs (Some (("colour", VStr "red") :: conforming_mapping))
  = @make_config Demo.platform Demo.fs (Some conforming_mapping).
Proof.
  apply (@make_config_ignores_unknown_key Demo.platform).
  intros Hin%list_elem_of_In. simpl in Hin. intuition discriminate.
Defined.

Lemma upstreams_need_sources_witness :
  ∃ e,
    @make_config Demo.platform Demo.fs (Some upstreams_without_sources)
    = Raise (EComplyScribeConfigError e)
    ∧ "Invalid config value for upstreams. Field required." ∈ errors e.
Proof.
  apply (@upstreams_need_sources Demo.platform Demo.fs upstreams_without_sources
           [("skip_validation", VBool true)]); reflexivity.
Defined.

(** ** More on the write conversion *)

Lemma kept_or_left_out (o : option string) :
  (if negb (dropped (py_of_opt_str o)) then Some (py_of_opt_str o) else None)
  = written_value o.
Proof.
  unfold written_value. destruct o as [s|]; simpl; [|reflexivity].
  now destruct (String.eqb s "None").
Qed.

Lemma path_kept_or_left_out (o : option string) :
  (if negb (dropped (VStr (str_of_opt_path o))) then Some (VStr (str_of_opt_path o))
   else None)
  = written_value o.
Proof.
  unfold written_value. destruct o as [s|]; simpl; [|reflexivity].
  now destruct (String.eqb s "None").
Qed.

Lemma unfiltered_keys_NoDup (c : ComplyScribeConfig) :
  List.NoDup (map fst
    ([("repo_path", VStr (str_of_opt_path (repo_path c)));
      ("markdown_dir", py_of_opt_str (markdown_dir c));
      ("ssp_index_file", py_of_opt_str (ssp_index_file c));
      ("committer_name", py_of_opt_str (committer_name c));
      ("committer_email", py_of_opt_str (committer_email c));
      ("commit_message", py_of_opt_str (commit_message c));
      ("branch", py_of_opt_str (branch c))]
     ++ match upstreams c with
        | Some u => [("upstreams", VDict (upstreams_dict_spec u))]
        | None => []
        end)).
Proof.
  apply NoDup_ListNoDup.
  destruct (upstreams c); simpl; apply (bool_decide_unpack _); vm_compute; exact I.
Qed.

(** X9: what [to_yaml_dict] holds under each key: a string field, and the
    string form of the path, is there unless it is unset or is the text
    [None]; the upstreams are there whenever they are set, whatever their
    lists hold; and no key comes twice. *)
Theorem to_yaml_dict_lookups (c : ComplyScribeConfig) :
  Forall (fun entry => dict_get (to_yaml_dict c) (fst entry) = snd entry)
    (written_lookups c)
  ∧ NoDup (map fst (to_yaml_dict c)).
Proof.
  pose proof (unfiltered_keys_NoDup c) as Hnd.
  rewrite to_yaml_dict_eq_spec. unfold to_yaml_dict_spec, written_lookups. split.
  - repeat (apply List.Forall_cons; [cbn [fst snd]; rewrite (dict_get_filter _ _ _ Hnd)|]);
      [..|apply List.Forall_nil]; cbn [dict_get app String.eqb Ascii.eqb Bool.eqb snd];
      try apply kept_or_left_out.
    + apply path_kept_or_left_out.
    + destruct (upstreams c) as [u|]; [|reflexivity].
      cbn [fmap option_fmap option_map]. now rewrite upstreams_dict_is_spec.
  - eapply sublist_NoDup; [apply NoDup_ListNoDup, Hnd | apply filter_keys_sublist].
Qed.





Lemma written_opt_str (o : option string) (l : list locseg) :
  field (nullable str_validator) l None (VStr <$> o) = Valid o.
Proof. now destruct o. Qed.

Lemma written_upstreams (o : option UpstreamsConfig) (l : list locseg) :
  field (nullable upstreams_validator) l None
    ((fun u => VDict (upstreams_dict_spec u)) <$> o)
  = Valid o.
Proof.
  destruct o as [[src incl excl skip]|]; [|reflexivity].
  cbn [fmap option_fmap option_map field nullable].
  unfold v_map, upstreams_validator, upstreams_dict_spec.
  cbn [sources include_models exclude_models skip_validation].
  destruct excl as [|x excl];
    cbn [app dict_get String.eqb Ascii.eqb Bool.eqb required_field field];
    unfold list_validator, py_of_strs; rewrite !list_items_py_of_strs; reflexivity.
Qed.

Section InMemoryRoundTrip.
Context `{Platform}.

Lemma written_opt_path (fs : gmap string node) (o : option string) (l : list locseg) :
  match o with
  | Some p => Path p = p ∧ is_dir fs p = true
  | None => True
  end →
  field (nullable (directory_path_validator fs)) l None (VStr <$> o) = Valid o.
Proof.
  destruct o as [p|]; [|reflexivity]. intros [Hnorm Hdir].
  cbn. now rewrite Hnorm, Hdir.
Qed.

(** X11: without a file in between, [make_config] on the mapping that
    [to_yaml_dict] returns gives the configuration back, when the
    configuration is valid and no string field, nor the string form of the
    path, is the text [None]. *)
Theorem make_config_of_to_yaml_dict (fs : gmap string node) (c : ComplyScribeConfig) :
  valid_config fs c → has_None_text c = false →
  make_config fs (Some (to_yaml_dict c)) = Ret c.
Proof.
  intros Hvalid Htext. rewrite make_config_Some. unfold ComplyScribeConfig_new.
  pose proof (to_yaml_dict_entries c Htext) as Hentries.
  unfold written_entries in Hentries.
  repeat (apply List.Forall_cons_iff in Hentries as [?He Hentries]).
  cbn [fst snd] in *.
  unfold validate_ComplyScribeConfig.
  rewrite He, He0, He1, He2, He3, He4, He5, He6.
  rewrite (written_opt_path fs _ _ Hvalid), !written_opt_str, written_upstreams.
  now destruct c.
Qed.
End InMemoryRoundTrip.

Lemma make_config_of_to_yaml_dict_witness :
  @make_config Demo.platform Demo.fs (Some (to_yaml_dict Demo.all_set))
  = Ret Demo.all_set.
Proof.
  apply (@make_config_of_to_yaml_dict Demo.platform).
  - split; [reflexivity | vm_compute; reflexivity].
  - vm_compute. reflexivity.
Defined.

(** ** More on copy with update *)

(** X12: updates compose: two updates in a row give the instance that one
    update with the two mappings merged gives, the later mapping winning
    where both name a field; the update with the empty mapping gives an
    equal copy; and every instance that was in the store is still there
    unchanged. *)
Theorem update_config_twice (h : list (gmap string pyval)) (config : nat)
    (u1 u2 o : gmap string pyval) :
  h !! config = Some o →
  update_config config u1 h = (h ++ [u1 ∪ o], Ret (length h))
  ∧ update_config (length h) u2 (h ++ [u1 ∪ o])
    = ((h ++ [u1 ∪ o]) ++ [(u2 ∪ u1) ∪ o], Ret (S (length h)))
  ∧ update_config config (u2 ∪ u1) h = (h ++ [(u2 ∪ u1) ∪ o], Ret (length h))
  ∧ update_config config ∅ h = (h ++ [o], Ret (length h))
  ∧ (∀ a x, h !! a = Some x → ((h ++ [u1 ∪ o]) ++ [(u2 ∪ u1) ∪ o]) !! a = Some x).
Proof.
  intros Ho. pose proof (list_lookup_total_correct _ _ _ Ho) as Htot.
  unfold update_config, model_copy. cbn. rewrite Htot.
  repeat split.
  - rewrite length_app. cbn [length]. rewrite Nat.add_1_r.
    rewrite lookup_total_app_r by lia. rewrite Nat.sub_diag. cbn.
    now rewrite (assoc_L (∪)).
  - now rewrite (left_id_L ∅ (∪)).
  - intros a x Ha. rewrite <- app_assoc. now apply lookup_app_l_Some.
Qed.

Lemma update_config_twice_witness :
  update_config 0 {[ "branch" := VStr "release" ]} [fields_dict Demo.all_set]
  = ([fields_dict Demo.all_set]
     ++ [{[ "branch" := VStr "release" ]} ∪ fields_dict Demo.all_set], Ret 1)
  ∧ update_config 1 {[ "branch" := VStr "v2" ]}
      ([fields_dict Demo.all_set]
       ++ [{[ "branch" := VStr "release" ]} ∪ fields_dict Demo.all_set])
    = (([fields_dict Demo.all_set]
        ++ [{[ "branch" := VStr "release" ]} ∪ fields_dict Demo.all_set])
       ++ [({[ "branch" := VStr "v2" ]} ∪ {[ "branch" := VStr "release" ]})
           ∪ fields_dict Demo.all_set], Ret 2)
  ∧ update_config 0 ({[ "branch" := VStr "v2" ]} ∪ {[ "branch" := VStr "release" ]})
      [fields_dict Demo.all_set]
    = ([fields_dict Demo.all_set]
       ++ [({[ "branch" := VStr "v2" ]} ∪ {[ "branch" := VStr "release" ]})
           ∪ fields_dict Demo.all_set], Ret 1)
  ∧ update_config 0 ∅ [fields_dict Demo.all_set]
    = ([fields_dict Demo.all_set] ++ [fields_dict Demo.all_set], Ret 1)
  ∧ (∀ a x, [fields_dict Demo.all_set] !! a = Some x →
       (([fields_dict Demo.all_set]
         ++ [{[ "branch" := VStr "release" ]} ∪ fields_dict Demo.all_set])
        ++ [({[ "branch" := VStr "v2" ]} ∪ {[ "branch" := VStr "release" ]})
            ∪ fields_dict Demo.all_set]) !! a = Some x).
Proof.
  apply (update_config_twice [fields_dict Demo.all_set] 0). reflexivity.
Defined.

(** ** More on writing *)

Section Disk.
Context `{Platform}.

Lemma mkdir_frame (dirs : list string) (fs fs1 : gmap string node)
    (r : result unit) (q : string) :
  mkdir dirs fs = (fs1, r) → q ∉ dirs → fs1 !! q = fs !! q.
Proof.
  revert fs. induction dirs as [|d dirs IH]; intros fs; simpl.
  - now intros [= <- _].
  - intros Hm [Hne Hq]%not_elem_of_cons.
    destruct (fs !! d) as [[|t]|] eqn:Hd.
    + now apply IH.
    + now injection Hm as <- _.
    + rewrite (IH _ Hm Hq). now apply lookup_insert_ne.
Qed.

Lemma mkdir_keeps_files (dirs : list string) (fs fs1 : gmap string node)
    (r : result unit) (q : string) (t : text) :
  mkdir dirs fs = (fs1, r) → fs !! q = Some (File t) → fs1 !! q = Some (File t).
Proof.
  revert fs. induction dirs as [|d dirs IH]; intros fs; simpl.
  - now intros [= <- _].
  - destruct (fs !! d) as [[|t']|] eqn:Hd.
    + apply IH.
    + now intros [= <- _].
    + intros Hm Hq. apply (IH _ Hm).
      rewrite lookup_insert_ne; [assumption | congruence].
Qed.

Lemma mkdir_creates (dirs : list string) (fs fs1 : gmap string node) (d : string) :
  mkdir dirs fs = (fs1, Ret tt) → d ∈ dirs → fs1 !! d = Some Dir.
Proof.
  revert fs. induction dirs as [|d' dirs IH]; intros fs; simpl.
  - intros _ Hin. now apply not_elem_of_nil in Hin.
  - intros Hm [->|Hin]%elem_of_cons.
    + destruct (fs !! d') as [[|t]|] eqn:Hd; [| discriminate Hm |].
      * now apply (mkdir_keeps_dirs _ _ _ _ _ Hm).
      * apply (mkdir_keeps_dirs _ _ _ _ _ Hm), lookup_insert_eq.
    + destruct (fs !! d') as [[|t]|]; [| discriminate Hm |]; now apply (IH _ Hm).
Qed.

Lemma mkdir_existing (dirs : list string) (fs : gmap string node) :
  (∀ d, d ∈ dirs → fs !! d = Some Dir) → mkdir dirs fs = (fs, Ret tt).
Proof.
  induction dirs as [|d dirs IH]; intros Hall; simpl; [reflexivity|].
  rewrite (Hall d) by apply list_elem_of_here.
  apply IH. intros d' Hd'. apply Hall. now apply list_elem_of_further.
Qed.

Lemma write_to_file_steps (c : ComplyScribeConfig) (p : string)
    (fs fs' : gmap string node) :
  write_to_file c p fs = (fs', Ret tt) →
  ∃ fs1, mkdir (parents_of p) fs = (fs1, Ret tt)
         ∧ fs1 !! p ≠ Some Dir
         ∧ fs' = <[p := File (yaml_dump (VDict (to_yaml_dict c)))]> fs1.
Proof.
  unfold write_to_file, write_to_file_body.
  destruct (mkdir (parents_of p) fs) as [fs1 [[]|e]] eqn:Hm;
    [|cbn; destruct e; discriminate].
  unfold open_w_write. intros Hw. exists fs1. split; [reflexivity|].
  destruct (fs1 !! p) as [[|t]|] eqn:Hp; cbn in Hw; try discriminate Hw;
    injection Hw as <-; (split; [discriminate | reflexivity]).
Qed.

(** X13: what a successful [write_to_file] does to the disk: the file holds
    the YAML text of [to_yaml_dict], every parent directory exists, every
    other file is as it was, and so is every path that is neither the file
    nor one of its parents. *)
Theorem write_to_file_effect (c : ComplyScribeConfig) (p : string)
    (fs fs' : gmap string node) :
  write_to_file c p fs = (fs', Ret tt) →
  fs' !! p = Some (File (yaml_dump (VDict (to_yaml_dict c))))
  ∧ (∀ d, d ∈ parents_of p → fs' !! d = Some Dir)
  ∧ (∀ q t, q ≠ p → fs !! q = Some (File t) → fs' !! q = Some (File t))
  ∧ (∀ q, q ≠ p → q ∉ parents_of p → fs' !! q = fs !! q).
Proof.
  intros (fs1 & Hm & Hp & ->)%write_to_file_steps.
  split; [apply lookup_insert_eq|]. split; [|split].
  - intros d Hd. pose proof (mkdir_creates _ _ _ _ Hm Hd) as Hd1.
    rewrite lookup_insert_ne; [assumption | congruence].
  - intros q t Hq Hfile. rewrite lookup_insert_ne by congruence.
    now apply (mkdir_keeps_files _ _ _ _ _ _ Hm).
  - intros q Hq Hnot. rewrite lookup_insert_ne by congruence.
    now apply (mkdir_frame _ _ _ _ _ Hm).
Qed.

(** X14: writing the same configuration to the same path once more
    succeeds and leaves the disk as the first write left it. *)
Theorem write_to_file_again (c : ComplyScribeConfig) (p : string)
    (fs fs' : gmap string node) :
  write_to_file c p fs = (fs', Ret tt) → write_to_file c p fs' = (fs', Ret tt).
Proof.
  intros (fs1 & Hm & Hp & ->)%write_to_file_steps.
  unfold write_to_file, write_to_file_body.
  rewrite mkdir_existing.
  - unfold open_w_write. rewrite lookup_insert_eq. cbn.
    now rewrite insert_insert_eq.
  - intros d Hd. pose proof (mkdir_creates _ _ _ _ Hm Hd) as Hd1.
    rewrite lookup_insert_ne; [assumption | congruence].
Qed.

(** X15: [write_to_file] onto a path that is a directory fails with an
    error of the file system and leaves the directory in place. *)
Theorem write_to_file_onto_directory (c : ComplyScribeConfig) (p : string)
    (fs : gmap string node) :
  fs !! p = Some Dir →
  ∃ fs' ex, write_to_file c p fs = (fs', Raise ex)
            ∧ (ex = EIsADirectoryError ∨ ex = EFileExistsError)
            ∧ fs' !! p = Some Dir.
Proof.
  intros Hp. unfold write_to_file, write_to_file_body.
  pose proof (mkdir_outcome (parents_of p) fs) as Hout.
  destruct (mkdir (parents_of p) fs) as [fs1 r] eqn:Hm.
  pose proof (mkdir_keeps_dirs _ _ _ _ _ Hm Hp) as Hp1.
  cbn in Hout. destruct Hout as [->|[->| ->]].
  - unfold open_w_write. rewrite Hp1. cbn.
    exists fs1, EIsADirectoryError. split; [reflexivity|]. split; [now left | assumption].
  - exists fs1, EFileExistsError. split; [reflexivity|]. split; [now right | assumption].
  - exists fs1, EIsADirectoryError. split; [reflexivity|]. split; [now left | assumption].
Qed.
End Disk.

Lemma write_to_file_effect_witness :
  (@write_to_file Demo.platform Demo.all_set Demo.config_path Demo.fs).1
    !! Demo.config_path
  = Some (@File Demo.platform (VDict (to_yaml_dict Demo.all_set)))
  ∧ (∀ d, d ∈ @parents_of Demo.platform Demo.config_path →
       (@write_to_file Demo.platform Demo.all_set Demo.config_path Demo.fs).1 !! d
       = Some (@Dir Demo.platform))
  ∧ (∀ q t, q ≠ Demo.config_path → Demo.fs !! q = Some (@File Demo.platform t) →
       (@write_to_file Demo.platform Demo.all_set Demo.config_path Demo.fs).1 !! q
       = Some (@File Demo.platform t))
  ∧ (∀ q, q ≠ Demo.config_path → q ∉ @parents_of Demo.platform Demo.config_path →
       (@write_to_file Demo.platform Demo.all_set Demo.config_path Demo.fs).1 !! q
       = Demo.fs !! q).
Proof.
  apply (@write_to_file_effect Demo.platform Demo.all_set Demo.config_path Demo.fs).
  vm_compute. reflexivity.
Defined.

Lemma write_to_file_again_witness :
  @write_to_file Demo.platform Demo.all_set Demo.config_path
    (@write_to_file Demo.platform Demo.all_set Demo.config_path Demo.fs).1
  = ((@write_to_file Demo.platform Demo.all_set Demo.config_path Demo.fs).1, Ret tt).
Proof.
  apply (@write_to_file_again Demo.platform Demo.all_set Demo.config_path Demo.fs).
  vm_compute. reflexivity.
Defined.

Lemma write_to_file_onto_directory_witness :
  ∃ fs' ex,
    @write_to_file Demo.platform Demo.all_set "/srv/repo" Demo.fs = (fs', Raise ex)
    ∧ (ex = EIsADirectoryError ∨ ex = EFileExistsError)
    ∧ fs' !! "/srv/repo" = Some (@Dir Demo.platform).
Proof.
  apply (@write_to_file_onto_directory Demo.platform).
  vm_compute. reflexivity.
Defined.
